(** * KaTrain [GameNode]: analysis merge and derived metrics

    Shallow embedding of [katrain/core/game_node.py].  A node keeps the
    engine's analysis in Python dictionaries; the embedding keeps them as
    finite maps from field names to JSON values and threads Python's
    exceptions through an error monad. *)

From Stdlib Require Import ZArith String List Bool Sorted.
From Stdlib Require Import Floats.PrimFloat Floats.SpecFloat Floats.FloatOps.
From stdpp Require Import base option list gmap strings fin_maps.

Local Open Scope string_scope.
Local Open Scope Z_scope.

(** ** Python exceptions *)

Inductive pyerr : Type :=
| KeyError
| TypeError
| IndexError
| OverflowError.

Inductive result (A : Type) : Type :=
| Ok (a : A)
| Raise (e : pyerr).

Arguments Ok {A} a.
Arguments Raise {A} e.

#[global] Instance result_ret : MRet result := fun _ a => Ok a.

#[global] Instance result_bind : MBind result := fun _ _ k r =>
  match r with
  | Ok a => k a
  | Raise e => Raise e
  end.

Definition raises {A : Type} (r : result A) : Prop := exists e, r = Raise e.

Fixpoint mapM {A B : Type} (f : A -> result B) (l : list A) : result (list B) :=
  match l with
  | [] => Ok []
  | a :: l' => b ← f a; bs ← mapM f l'; Ok (b :: bs)
  end.

Fixpoint foldM {A B : Type} (f : B -> A -> result B) (l : list A) (b : B) : result B :=
  match l with
  | [] => Ok b
  | a :: l' => b' ← f b a; foldM f l' b'
  end.

(** ** JSON values held in the analysis dictionaries

    The engine's replies carry null, integers, floats, strings and lists of
    move ids (principal variations).  Python's [bool] is an [int], so a JSON
    boolean is its integer. *)

Inductive value : Type :=
| VNone
| VInt (n : Z)
| VFloat (f : float)
| VStr (s : string)
| VList (l : list string).

Abbreviation dict := (gmap string value).

(** [d[k]]: a missing key raises [KeyError]. *)
Definition getitem (d : dict) (k : string) : result value :=
  match d !! k with
  | Some v => Ok v
  | None => Raise KeyError
  end.

(** [d.get(k, dflt)]. *)
Definition get_default (d : dict) (k : string) (dflt : value) : value :=
  default dflt (d !! k).

(** *** Numbers

    [int] is unbounded, [float] is IEEE binary64.  Mixed comparisons are
    exact, as in CPython; mixed arithmetic converts the integer, rounding to
    nearest even and raising [OverflowError] outside the float range. *)

Definition float_of_int (n : Z) : result float :=
  let sf := binary_normalize prec emax n 0 false in
  match sf with
  | S754_infinity _ => Raise OverflowError
  | _ => Ok (SF2Prim sf)
  end.

(** Exact comparison of an integer with a float: [Some c] is the ordering of
    [n] against [f], [None] when [f] is a NaN. *)
Definition compare_int_float (n : Z) (f : float) : option comparison :=
  match Prim2SF f with
  | S754_nan => None
  | S754_zero _ => Some (n ?= 0)
  | S754_infinity s => Some (if s then Gt else Lt)
  | S754_finite s m e =>
      let mz := if s then Z.neg m else Z.pos m in
      Some (if 0 <=? e then n ?= mz * 2 ^ e else n * 2 ^ (- e) ?= mz)
  end.

Definition is_lt (c : option comparison) : bool :=
  match c with Some Lt => true | _ => false end.
Definition is_gt (c : option comparison) : bool :=
  match c with Some Gt => true | _ => false end.
Definition is_eq (c : option comparison) : bool :=
  match c with Some Eq => true | _ => false end.

Fixpoint list_ltb (l1 l2 : list string) : bool :=
  match l1, l2 with
  | [], [] => false
  | [], _ :: _ => true
  | _ :: _, [] => false
  | a :: l1', b :: l2' =>
      if String.eqb a b then list_ltb l1' l2' else String.ltb a b
  end.

Fixpoint list_eqb (l1 l2 : list string) : bool :=
  match l1, l2 with
  | [], [] => true
  | a :: l1', b :: l2' => String.eqb a b && list_eqb l1' l2'
  | _, _ => false
  end.

(** [a < b]. *)
Definition py_lt (a b : value) : result bool :=
  match a, b with
  | VInt x, VInt y => Ok (x <? y)
  | VFloat x, VFloat y => Ok (PrimFloat.ltb x y)
  | VInt x, VFloat y => Ok (is_lt (compare_int_float x y))
  | VFloat x, VInt y => Ok (is_gt (compare_int_float y x))
  | VStr x, VStr y => Ok (String.ltb x y)
  | VList x, VList y => Ok (list_ltb x y)
  | _, _ => Raise TypeError
  end.

(** [a == b]; never raises. *)
Definition py_eq (a b : value) : bool :=
  match a, b with
  | VNone, VNone => true
  | VInt x, VInt y => x =? y
  | VFloat x, VFloat y => PrimFloat.eqb x y
  | VInt x, VFloat y => is_eq (compare_int_float x y)
  | VFloat x, VInt y => is_eq (compare_int_float y x)
  | VStr x, VStr y => String.eqb x y
  | VList x, VList y => list_eqb x y
  | _, _ => false
  end.

(** [min(a, b)]: keeps [a] unless [b < a]. *)
Definition py_min (a b : value) : result value :=
  c ← py_lt b a; Ok (if c : bool then b else a).

Definition arith (fz : Z -> Z -> Z) (ff : float -> float -> float)
    (a b : value) : result value :=
  match a, b with
  | VInt x, VInt y => Ok (VInt (fz x y))
  | VFloat x, VFloat y => Ok (VFloat (ff x y))
  | VInt x, VFloat y => x' ← float_of_int x; Ok (VFloat (ff x' y))
  | VFloat x, VInt y => y' ← float_of_int y; Ok (VFloat (ff x y'))
  | _, _ => Raise TypeError
  end.

(** [a - b] and [a * b] on numbers. *)
Definition py_sub : value -> value -> result value := arith Z.sub PrimFloat.sub.
Definition py_mul : value -> value -> result value := arith Z.mul PrimFloat.mul.

(** [a + n] for an integer literal [n]: numbers add; a string or a list
    cannot take an [int] and [None] supports no addition. *)
Definition py_add_int (a : value) (n : Z) : result value :=
  match a with
  | VInt x => Ok (VInt (x + n))
  | VFloat x => n' ← float_of_int n; Ok (VFloat (PrimFloat.add x n'))
  | _ => Raise TypeError
  end.

Example float_of_int_3 : float_of_int 3 = Ok 3%float.
Proof. reflexivity. Qed.

Example lt_int_float : py_lt (VInt 2) (VFloat 2.5) = Ok true.
Proof. reflexivity. Qed.

Example mul_sign : py_mul (VInt (-1)) (VFloat 3) = Ok (VFloat (-3)).
Proof. reflexivity. Qed.

(** ** Sorting

    [sorted(xs, key=f)] computes every key first and then compares keys with
    [<] only.  The embedding is a stable insertion sort; it is the order
    CPython's sort produces whenever [<] is a total preorder on the keys. *)

Section Sorted.
Context {K A : Type} (lt : K -> K -> result bool).

Fixpoint insert_by (x : K * A) (l : list (K * A)) : result (list (K * A)) :=
  match l with
  | [] => Ok [x]
  | y :: l' =>
      c ← lt (fst x) (fst y);
      if c : bool then Ok (x :: y :: l')
      else (r ← insert_by x l'; Ok (y :: r))
  end.

Definition sort_keyed (l : list (K * A)) : result (list (K * A)) :=
  foldM (fun acc x => insert_by x acc) l [].

Definition py_sorted (key : A -> result K) (l : list A) : result (list A) :=
  kl ← mapM (fun a => k ← key a; Ok (k, a)) l;
  r ← sort_keyed kl;
  Ok (map snd r).
End Sorted.

(** Comparison of two-element tuples: the first position where the tuples
    differ (by [==]) decides, by [<]. *)
Definition tuple_lt (a b : value * value) : result bool :=
  if py_eq (fst a) (fst b)
  then (if py_eq (snd a) (snd b) then Ok false else py_lt (snd a) (snd b))
  else py_lt (fst a) (fst b).

(** ** Moves and nodes *)

(** [sgf_parser.Move]: board coordinates ([None] for a pass) and the player
    tag. *)
Record Move : Type := mkMove {
  coords : option (nat * nat);
  player : value
}.

(** Modelled from the spec: [Move.__eq__] is not part of this file; moves are
    compared "by value-equality", that is coordinates and player. *)
Definition Move_eqb (a b : Move) : bool :=
  match coords a, coords b with
  | None, None => true
  | Some (x1, y1), Some (x2, y2) => Nat.eqb x1 x2 && Nat.eqb y1 y2
  | _, _ => false
  end && py_eq (player a) (player b).

(** The mapping [analysis["moves"]]: a Python dictionary iterates in
    insertion order and [candidate_moves] sorts its values stably, so the
    entries are kept as an association list with unique keys. *)
Abbreviation moves_t := (list (string * dict)).

Fixpoint moves_get (mvs : moves_t) (k : string) : option dict :=
  match mvs with
  | [] => None
  | (k', d) :: mvs' => if String.eqb k' k then Some d else moves_get mvs' k
  end.

(** [mvs[k] = d]: an existing key keeps its position, a new key goes last. *)
Fixpoint moves_set (mvs : moves_t) (k : string) (d : dict) : moves_t :=
  match mvs with
  | [] => [(k, d)]
  | (k', d') :: mvs' =>
      if String.eqb k' k then (k', d) :: mvs' else (k', d') :: moves_set mvs' k d
  end.

(** A node together with the chain of its ancestors.  [parent], [move],
    [next_player] and [board_size] come from the base class [SGFNode]; the
    other fields are the ones [GameNode.__init__] adds and the analysis code
    reads or writes. *)
#[local] Set Warnings "-register-all".
Inductive GameNode : Type := mkGameNode {
  parent : option GameNode;
  move : option Move;
  next_player : value;
  board_size : nat * nat;
  analysis_moves : moves_t;
  analysis_root : option dict;
  ownership : option (list float);
  policy : option (list float)
}.

(** [GameNode.__init__]: empty analysis, no ownership, no policy. *)
Definition new_node (p : option GameNode) (m : option Move) (np : value)
    (sz : nat * nat) : GameNode :=
  mkGameNode p m np sz [] None None None.

Definition set_moves (n : GameNode) (mvs : moves_t) : GameNode :=
  mkGameNode (parent n) (move n) (next_player n) (board_size n)
    mvs (analysis_root n) (ownership n) (policy n).

(** The engine's reply ([analysis_json]).  [rootInfo] and [moveInfos] are
    required by the reply format; [ownership] and [policy] are optional and
    read with [.get]. *)
Record AnalysisJson : Type := mkAnalysisJson {
  rootInfo : dict;
  moveInfos : list dict;
  json_ownership : option (list float);
  json_policy : option (list float)
}.

(** ** [update_move_analysis] *)

(** [{"move": move_gtp, "order": 999, **move_analysis}] *)
Definition with_defaults (move_analysis : dict) (move_gtp : string) : dict :=
  move_analysis ∪ {[ "move" := VStr move_gtp; "order" := VInt 999 ]}.

Definition update_move_analysis (mvs : moves_t) (move_analysis : dict)
    (move_gtp : string) : result moves_t :=
  match moves_get mvs move_gtp with
  | None => Ok (moves_set mvs move_gtp (with_defaults move_analysis move_gtp))
  | Some cur =>
      co ← getitem cur "order";
      o ← py_min co (get_default move_analysis "order" (VInt 999));
      let cur1 : dict := <[ "order" := o ]> cur in
      cv ← getitem cur1 "visits";
      mv ← getitem move_analysis "visits";
      c ← py_lt cv mv;
      Ok (moves_set mvs move_gtp (if c : bool then move_analysis ∪ cur1 else cur1))
  end.

(** ** [player_sign] *)

(** [{"B": 1, "W": -1, None: 0}[player]]: a list is unhashable, any other
    missing key is a [KeyError]. *)
Definition player_sign (p : value) : result Z :=
  match p with
  | VNone => Ok 0
  | VStr s => if String.eqb s "B" then Ok 1
              else if String.eqb s "W" then Ok (-1)
              else Raise KeyError
  | VList _ => Raise TypeError
  | _ => Raise KeyError
  end.

(** ** Instances of the helpers that live outside this file

    [Move.gtp] and [utils.var_to_grid] are parameters of the development
    (see the section below).  These two instances run the definitions on
    concrete boards: the usual GTP spelling (column letter without I, row
    number, ["pass"]), and a grid cut row by row from the flat sequence with
    the last row first. *)

Definition gtp_columns : list string :=
  ["A"; "B"; "C"; "D"; "E"; "F"; "G"; "H"; "J"; "K"; "L"; "M"; "N"; "O"; "P";
   "Q"; "R"; "S"; "T"; "U"; "V"; "W"; "X"; "Y"; "Z"].

Definition digit_string (n : nat) : string :=
  match n with
  | 0%nat => "0" | 1%nat => "1" | 2%nat => "2" | 3%nat => "3" | 4%nat => "4"
  | 5%nat => "5" | 6%nat => "6" | 7%nat => "7" | 8%nat => "8" | _ => "9"
  end.

Definition decimal (n : nat) : string :=
  if Nat.ltb n 10 then digit_string n
  else digit_string (n / 10) +:+ digit_string (n mod 10).

Definition gtp_coord (m : Move) : string :=
  match coords m with
  | None => "pass"
  | Some (x, y) => default "?" (gtp_columns !! x) +:+ decimal (S y)
  end.

Fixpoint rows_of (n : nat) (w : nat) (l : list float) : list (list float) :=
  match n with
  | O => []
  | S n' => take w l :: rows_of n' w (drop w l)
  end.

Definition grid_rows (l : list float) (size : nat * nat) : list (list float) :=
  rev (rows_of (snd size) (fst size) l).

Example gtp_coord_D4 : gtp_coord (mkMove (Some (3, 3)%nat) (VStr "B")) = "D4".
Proof. reflexivity. Qed.

(** ** Concrete positions used by the examples below *)

Definition black : value := VStr "B".
Definition white : value := VStr "W".

Definition D4 (p : value) : Move := mkMove (Some (3, 3)%nat) p.

(** A root position whose analysis gives the score [s]. *)
Definition scored_root (s : float) : GameNode :=
  mkGameNode None None black (19, 19)%nat []
    (Some {[ "scoreLead" := VFloat s; "visits" := VInt 100 ]}) None None.

(** The position after [m], child of [p], with score [s]. *)
Definition scored_child (p : GameNode) (m : Move) (s : float) : GameNode :=
  mkGameNode (Some p) (Some m) white (19, 19)%nat []
    (Some {[ "scoreLead" := VFloat s; "visits" := VInt 50 ]}) None None.

(** Black moves from +3.0 to +1.0; White moves from -2.0 to -5.0. *)
Definition black_example : GameNode := scored_child (scored_root 3) (D4 black) 1.
Definition white_example : GameNode := scored_child (scored_root (-2)) (D4 white) (-5).

(** Two results for D4: ten visits ranked first, twenty visits ranked fourth. *)
Definition low_visits : dict :=
  {[ "move" := VStr "D4"; "order" := VInt 0; "visits" := VInt 10;
     "scoreLead" := VFloat 1.5 ]}.
Definition high_visits : dict :=
  {[ "move" := VStr "D4"; "order" := VInt 3; "visits" := VInt 20;
     "scoreLead" := VFloat 2.5 ]}.

(** A policy for a 2x2 board: four points and the pass slot. *)
Definition small_policy : list float :=
  [0.125; 0.5; 0.0625; 0.25; 0.0625]%float.

(** An analysed 2x2 root position without move entries. *)
Definition small_root : GameNode :=
  mkGameNode None None black (2, 2)%nat []
    (Some {[ "scoreLead" := VFloat 0.5; "visits" := VInt 1 ]})
    None (Some small_policy).

(** A root position holding a 100-visit entry for D4, ranked first. *)
Definition stored_node : GameNode :=
  mkGameNode None None black (19, 19)%nat
    [("D4", {[ "move" := VStr "D4"; "order" := VInt 0; "visits" := VInt 100;
               "scoreLead" := VFloat 0.5; "pv" := VList ["D4"; "Q4"] ]})]
    (Some {[ "scoreLead" := VFloat 0.5; "visits" := VInt 100 ]}) None None.

(** A reply with 50 root visits whose only move info is Q16. *)
Definition reply : AnalysisJson :=
  mkAnalysisJson
    {[ "scoreLead" := VFloat 0.25; "visits" := VInt 50; "winrate" := VFloat 0.5 ]}
    [ {[ "move" := VStr "Q16"; "order" := VInt 0; "visits" := VInt 40;
         "scoreLead" := VFloat 0.25; "pv" := VList ["Q16"; "D16"] ]} ]
    None (Some small_policy).

(** A reply whose root statistics carry a principal variation. *)
Definition reply_with_root_pv : AnalysisJson :=
  mkAnalysisJson
    {[ "scoreLead" := VFloat 0.25; "visits" := VInt 50; "pv" := VList ["Q16"] ]}
    [] None None.

(** A reply for the root position whose move info for D4 has 100 visits and
    no principal variation. *)
Definition reply_without_pv : AnalysisJson :=
  mkAnalysisJson
    {[ "scoreLead" := VFloat 0.5; "visits" := VInt 100 ]}
    [ {[ "move" := VStr "D4"; "order" := VInt 0; "visits" := VInt 100;
         "scoreLead" := VFloat 0.5 ]} ]
    None None.

(** The position after Black's move at the 2x2 point (1, 1), child of
    [small_root]. *)
Definition small_child : GameNode :=
  mkGameNode (Some small_root) (Some (mkMove (Some (1, 1)%nat) black)) white
    (2, 2)%nat [] None None None.

(** A reply whose only move info has neither [order] nor [pv]. *)
Definition reply_without_order : AnalysisJson :=
  mkAnalysisJson
    {[ "scoreLead" := VFloat 0.25; "visits" := VInt 50 ]}
    [ {[ "move" := VStr "Q16"; "visits" := VInt 40 ]} ]
    None None.

(** An analysed root position holding three entries stored in the order
    D4, Q16, C3 with the ranks 2, 0, 1. *)
Definition ranked_node : GameNode :=
  mkGameNode None None black (19, 19)%nat
    [("D4", {[ "move" := VStr "D4"; "order" := VInt 2; "visits" := VInt 30;
               "scoreLead" := VFloat 0.25 ]});
     ("Q16", {[ "move" := VStr "Q16"; "order" := VInt 0; "visits" := VInt 60;
                "scoreLead" := VFloat 0.5 ]});
     ("C3", {[ "move" := VStr "C3"; "order" := VInt 1; "visits" := VInt 10;
               "scoreLead" := VFloat 0.125 ]})]
    (Some {[ "scoreLead" := VFloat 0.5; "visits" := VInt 100 ]}) None None.

(** The value of a computation that is known to return. *)
Definition get_ok {A : Type} (r : result A) (dflt : A) : A :=
  match r with
  | Ok a => a
  | Raise _ => dflt
  end.

(** Two deliveries for the same move id, [first] before [second]. *)
Definition deliver_both (mvs : moves_t) (first second : dict) (k : string)
    : result moves_t :=
  mvs1 ← update_move_analysis mvs first k;
  update_move_analysis mvs1 second k.

(** ** The analysis code of [GameNode] *)

Section GameNode.

(** [Move.gtp()], [var_to_grid(policy, size)] and the player a bare
    [Move(None)] gets are defined in [sgf_parser] and [utils]. *)
Variable gtp : Move -> string.
Variable var_to_grid : list float -> nat * nat -> list (list float).
Variable default_player : value.

(** The offset [set_analysis] adds to the orders of an alternatives
    reply. *)
Definition alternatives_offset : Z := 10.

(** A key of [analysis["moves"]] is a move id, a string. *)
Definition as_move_id (v : value) : result string :=
  match v with
  | VStr s => Ok s
  | _ => Raise TypeError
  end.

(** [analysis_json["moveInfos"][0]["pv"] if analysis_json["moveInfos"]
    else []], as the list that is appended to a one-element list. *)
Definition first_pv (infos : list dict) : result (list string) :=
  match infos with
  | [] => Ok []
  | d :: _ =>
      v ← getitem d "pv";
      match v with
      | VList l => Ok l
      | _ => Raise TypeError
      end
  end.

(** [m["order"] += 10] *)
Definition add_offset (m : dict) : result dict :=
  o ← getitem m "order";
  o' ← py_add_int o alternatives_offset;
  Ok (<[ "order" := o' ]> m).

(** [move_dict["order"] = 999] for every stored entry. *)
Definition reset_orders (mvs : moves_t) : moves_t :=
  map (fun kd => (fst kd, <[ "order" := VInt 999 ]> (snd kd))) mvs.

(** [for move_analysis in moveInfos:
       self.update_move_analysis(move_analysis, move_analysis["move"])] *)
Definition merge_infos (mvs : moves_t) (infos : list dict) : result moves_t :=
  foldM (fun acc ma =>
           v ← getitem ma "move";
           k ← as_move_id v;
           update_move_analysis acc ma k) infos mvs.

(** [set_analysis]: the node after the call and the reply after the call
    (the code writes into the reply: the shifted orders and [rootInfo]'s
    [pv]).  [self.analysis["root"]] is the reply's [rootInfo] object itself,
    so the later write of [pv] shows in the node's root as well.  Each reply
    is a freshly decoded object, distinct from everything the tree holds. *)
Definition set_analysis (self : GameNode) (analysis_json : AnalysisJson)
    (refine_move : option Move) (alternatives_mode : bool)
    : result (GameNode * AnalysisJson) :=
  match refine_move with
  | Some rm =>
      pvtail ← first_pv (moveInfos analysis_json);
      mvs ← update_move_analysis (analysis_moves self)
              (rootInfo analysis_json ∪ {[ "pv" := VList (gtp rm :: pvtail) ]})
              (gtp rm);
      Ok (set_moves self mvs, analysis_json)
  | None =>
      infos ← (if alternatives_mode
               then mapM add_offset (moveInfos analysis_json)
               else Ok (moveInfos analysis_json));
      let mvs0 := if negb alternatives_mode
                  then reset_orders (analysis_moves self)
                  else analysis_moves self in
      mvs ← merge_infos mvs0 infos;
      match parent self, move self with
      | Some p, Some m =>
          pvtail ← first_pv infos;
          let root' : dict :=
            <[ "pv" := VList (gtp m :: pvtail) ]> (rootInfo analysis_json) in
          pmvs ← update_move_analysis (analysis_moves p) root' (gtp m);
          Ok (mkGameNode (Some (set_moves p pmvs)) (move self)
                (next_player self) (board_size self) mvs
                (if alternatives_mode then analysis_root self else Some root')
                (json_ownership analysis_json) (json_policy analysis_json),
              mkAnalysisJson root' infos
                (json_ownership analysis_json) (json_policy analysis_json))
      | _, _ =>
          Ok (mkGameNode (parent self) (move self)
                (next_player self) (board_size self) mvs
                (if alternatives_mode then analysis_root self
                 else Some (rootInfo analysis_json))
                (json_ownership analysis_json) (json_policy analysis_json),
              mkAnalysisJson (rootInfo analysis_json) infos
                (json_ownership analysis_json) (json_policy analysis_json))
      end
  end.

(** ** Derived metrics *)

Definition analysis_ready (n : GameNode) : bool :=
  match analysis_root n with
  | Some _ => true
  | None => false
  end.

(** [score]: [root.get("scoreLead")] when ready, else [None]. *)
Definition score (n : GameNode) : value :=
  match analysis_root n with
  | Some r => get_default r "scoreLead" VNone
  | None => VNone
  end.

(** [points_lost]; the outer [None] is Python's [None]. *)
Definition points_lost (n : GameNode) : result (option value) :=
  match move n, parent n with
  | Some single_move, Some p =>
      if analysis_ready n && analysis_ready p then
        sg ← player_sign (player single_move);
        d ← py_sub (score p) (score n);
        r ← py_mul (VInt sg) d;
        Ok (Some r)
      else Ok None
  | _, _ => Ok None
  end.

(** [l[i]] for an index from a [range]. *)
Definition index {A : Type} (l : list A) (i : nat) : result A :=
  match l !! i with
  | Some a => Ok a
  | None => Raise IndexError
  end.

(** [(x, y) for x in range(szx) for y in range(szy)] *)
Definition board_points (szx szy : nat) : list (nat * nat) :=
  x ← seq 0 szx; y ← seq 0 szy; [(x, y)].

Definition float_lt (a b : float) : result bool := Ok (PrimFloat.ltb a b).

(** [policy_ranking]: [None] when the policy is absent or empty. *)
Definition policy_ranking (n : GameNode) : result (option (list (float * Move))) :=
  match policy n with
  | Some (p0 :: ps) =>
      let pol := p0 :: ps in
      let '(szx, szy) := board_size n in
      let policy_grid := var_to_grid pol (szx, szy) in
      moves ← mapM (fun xy : nat * nat =>
                      row ← index policy_grid (snd xy);
                      p ← index row (fst xy);
                      Ok (p, mkMove (Some xy) (next_player n)))
                   (board_points szx szy);
      let moves := app moves [(List.last ps p0, mkMove None (next_player n))] in
      r ← py_sorted float_lt (fun mp : float * Move => Ok (PrimFloat.opp (fst mp))) moves;
      Ok (Some r)
  | _ => Ok None
  end.

(** The first entry of the ranking equal to [single_move], with its
    0-based position [ix]. *)
Fixpoint find_move (single_move : Move) (ranking : list (float * Move)) (ix : Z)
    : option (Z * float) :=
  match ranking with
  | [] => None
  | (p, m) :: rest =>
      if Move_eqb m single_move then Some (ix, p)
      else find_move single_move rest (ix + 1)
  end.

(** [move_policy_stats]: iterating over [None] is a [TypeError]. *)
Definition move_policy_stats (n : GameNode)
    : result (option Z * float * list (float * Move)) :=
  match move n, parent n with
  | Some single_move, Some p =>
      pr ← policy_ranking p;
      match pr with
      | None => Raise TypeError
      | Some ranking =>
          match find_move single_move ranking 0 with
          | Some (ix, prob) => Ok (Some (ix + 1), prob, ranking)
          | None => Ok (None, 0%float, [])
          end
      end
  | _, _ => Ok (None, 0%float, [])
  end.

(** The single candidate built from the root statistics. *)
Definition root_candidate (root : dict) (top_polmove : Move) : dict :=
  <[ "pv" := VList [gtp top_polmove] ]>
    (<[ "move" := VStr (gtp top_polmove) ]>
       (<[ "order" := VInt 0 ]> (<[ "pointsLost" := VInt 0 ]> root))).

(** [{"pointsLost": sign * (root_score - d["scoreLead"]), **d}] *)
Definition with_points_lost (np root_score : value) (d : dict) : result dict :=
  sg ← player_sign np;
  s ← getitem d "scoreLead";
  diff ← py_sub root_score s;
  pl ← py_mul (VInt sg) diff;
  Ok (d ∪ {[ "pointsLost" := pl ]}).

Definition candidate_key (d : dict) : result (value * value) :=
  o ← getitem d "order";
  pl ← getitem d "pointsLost";
  Ok (o, pl).

Definition candidate_moves (n : GameNode) : result (list dict) :=
  match analysis_root n with
  | None => Ok []
  | Some root =>
      match analysis_moves n with
      | [] =>
          polmoves ← policy_ranking n;
          let top_polmove :=
            match polmoves with
            | Some (pm :: _) => snd pm
            | _ => mkMove None default_player
            end in
          Ok [root_candidate root top_polmove]
      | mvs =>
          root_score ← getitem root "scoreLead";
          ds ← mapM (with_points_lost (next_player n) root_score) (map snd mvs);
          py_sorted tuple_lt candidate_key ds
      end
  end.


(** [winrate]: [root.get("winrate")] when ready, else [None]. *)
Definition winrate (n : GameNode) : value :=
  match analysis_root n with
  | Some r => get_default r "winrate" VNone
  | None => VNone
  end.

(** [parent_realized_points_lost]: needs a move, a parent and a grandparent,
    and the node and the grandparent ready. *)
Definition parent_realized_points_lost (n : GameNode) : result (option value) :=
  match move n, parent n with
  | Some single_move, Some p =>
      match parent p with
      | Some pp =>
          if analysis_ready n && analysis_ready pp then
            sg ← player_sign (player single_move);
            d ← py_sub (score n) (score pp);
            r ← py_mul (VInt sg) d;
            Ok (Some r)
          else Ok None
      | None => Ok None
      end
  | _, _ => Ok None
  end.

(** The sort key of [order_children]: [0.5 if c.auto_undo is None else
    int(c.auto_undo)]. *)
Definition auto_undo_key (a : option bool) : value :=
  match a with
  | None => VFloat 0.5
  | Some b => VInt (if b then 1 else 0)
  end.

(** [order_children]: only the [auto_undo] attribute of a child is read, so
    the children are any values with that attribute. *)
Definition order_children {A : Type} (auto_undo : A -> option bool)
    (children : list A) : result (list A) :=
  py_sorted py_lt (fun c => Ok (auto_undo_key (auto_undo c))) children.

(** The three groups of children: kept, not analysed, undone. *)
Definition is_kept (a : option bool) : bool :=
  match a with Some false => true | _ => false end.
Definition is_unknown (a : option bool) : bool :=
  match a with None => true | _ => false end.
Definition is_undone (a : option bool) : bool :=
  match a with Some true => true | _ => false end.

(** The rank of a child's group, the child paired with its sort key, and
    the children arranged group by group. *)
Definition group (a : option bool) : nat :=
  match a with
  | Some false => 0
  | None => 1
  | Some true => 2
  end.

Definition keyed_child {A : Type} (auto_undo : A -> option bool) (c : A)
    : value * A :=
  (auto_undo_key (auto_undo c), c).

Definition in_group {A : Type} (auto_undo : A -> option bool) (g : nat) (c : A)
    : bool :=
  Nat.eqb (group (auto_undo c)) g.

Definition grouped {A : Type} (auto_undo : A -> option bool) (l : list A)
    : list A :=
  app (List.filter (in_group auto_undo 0) l)
      (app (List.filter (in_group auto_undo 1) l)
           (List.filter (in_group auto_undo 2) l)).

(** The order in a sort key of [candidate_moves], when it is an integer. *)
Definition order_rank (k : value * value) : Z :=
  match fst k with
  | VInt z => z
  | _ => 0
  end.

Definition int_order (k : value * value) : Prop := exists z, fst k = VInt z.

(** The move ids under which entries are stored, in insertion order. *)
Definition move_ids (mvs : moves_t) : list string := map fst mvs.

(** Every entry is stored under the move id it names. *)
Definition keyed (mvs : moves_t) : Prop :=
  forall k e, moves_get mvs k = Some e -> e !! "move" = Some (VStr k).

(** Every entry has an integer order and an integer visit count. *)
Definition int_entries (mvs : moves_t) : Prop :=
  forall k e, moves_get mvs k = Some e ->
    exists o v, e !! "order" = Some (VInt o) /\ e !! "visits" = Some (VInt v).

(** * Properties *)

(** ** The error monad *)

Lemma bind_Ok {A B : Type} (r : result A) (k : A -> result B) (b : B) :
  r ≫= k = Ok b -> exists a, r = Ok a /\ k a = Ok b.
Proof.
  destruct r as [a|e]; cbn; intros H; [eauto | discriminate].
Qed.

Lemma bind_Ok_l {A B : Type} (a : A) (k : A -> result B) :
  Ok a ≫= k = k a.
Proof. reflexivity. Qed.

Ltac inv_bind H :=
  let a := fresh "a" in
  let Ha := fresh "Ha" in
  apply bind_Ok in H; destruct H as (a & Ha & H).

Lemma getitem_Ok (d : dict) (k : string) (v : value) :
  getitem d k = Ok v <-> d !! k = Some v.
Proof.
  unfold getitem. destruct (d !! k); split; intros H; congruence.
Qed.

Lemma getitem_lookup (d : dict) (k : string) (v : value) :
  d !! k = Some v -> getitem d k = Ok v.
Proof. apply getitem_Ok. Qed.

(** ** The association list of move entries *)

Lemma moves_get_set_eq (mvs : moves_t) (k : string) (d : dict) :
  moves_get (moves_set mvs k d) k = Some d.
Proof.
  induction mvs as [|[k' d'] mvs IH]; simpl.
  - by rewrite String.eqb_refl.
  - destruct (String.eqb k' k) eqn:E; simpl; rewrite E; [done | apply IH].
Qed.

Lemma moves_get_set_ne (mvs : moves_t) (k k' : string) (d : dict) :
  k <> k' -> moves_get (moves_set mvs k d) k' = moves_get mvs k'.
Proof.
  intros Hne. induction mvs as [|[k0 d0] mvs IH]; simpl.
  - destruct (String.eqb k k') eqn:E; [|done].
    apply String.eqb_eq in E. contradiction.
  - destruct (String.eqb k0 k) eqn:E; simpl.
    + apply String.eqb_eq in E. subst k0.
      destruct (String.eqb k k') eqn:E'; [|done].
      apply String.eqb_eq in E'. contradiction.
    + by rewrite IH.
Qed.

Lemma moves_get_In (mvs : moves_t) (k : string) (d : dict) :
  moves_get mvs k = Some d -> In d (map snd mvs).
Proof.
  induction mvs as [|[k' d'] mvs IH]; simpl; [discriminate|].
  destruct (String.eqb k' k); intros H; [left; congruence | right; auto].
Qed.

(** An update touches the entry of its own move id only. *)
Lemma update_move_analysis_other (mvs mvs' : moves_t) (ma : dict) (k k' : string) :
  update_move_analysis mvs ma k = Ok mvs' ->
  k <> k' ->
  moves_get mvs' k' = moves_get mvs k'.
Proof.
  unfold update_move_analysis. intros H Hne.
  destruct (moves_get mvs k) as [cur|].
  - repeat inv_bind H. injection H as <-. by apply moves_get_set_ne.
  - injection H as <-. by apply moves_get_set_ne.
Qed.

(** A move id without an entry gets the delivered record over the defaults. *)
Lemma update_move_analysis_new (mvs : moves_t) (ma : dict) (k : string) :
  moves_get mvs k = None ->
  update_move_analysis mvs ma k = Ok (moves_set mvs k (with_defaults ma k)).
Proof. unfold update_move_analysis. by intros ->. Qed.

Lemma with_defaults_order (ma : dict) (k : string) :
  with_defaults ma k !! "order" = Some (get_default ma "order" (VInt 999)).
Proof.
  unfold with_defaults, get_default. rewrite lookup_union.
  destruct (ma !! "order") as [o|] eqn:E; by simplify_map_eq.
Qed.

Lemma with_defaults_field (ma : dict) (k f : string) (v : value) :
  ma !! f = Some v -> with_defaults ma k !! f = Some v.
Proof. intros H. unfold with_defaults. by apply lookup_union_Some_l. Qed.

Lemma py_min_int (a b : Z) : py_min (VInt a) (VInt b) = Ok (VInt (Z.min a b)).
Proof.
  unfold py_min; cbn. destruct (Z.ltb_spec b a).
  - by rewrite Z.min_r by lia.
  - by rewrite Z.min_l by lia.
Qed.

(** An update of an existing entry, in terms of integer visits and orders. *)
Lemma update_move_analysis_existing (mvs : moves_t) (ma cur : dict) (k : string)
    (oc om vc vm : Z) :
  moves_get mvs k = Some cur ->
  cur !! "order" = Some (VInt oc) ->
  get_default ma "order" (VInt 999) = VInt om ->
  cur !! "visits" = Some (VInt vc) ->
  ma !! "visits" = Some (VInt vm) ->
  update_move_analysis mvs ma k =
    Ok (moves_set mvs k
          (if vc <? vm
           then ma ∪ <[ "order" := VInt (Z.min oc om) ]> cur
           else <[ "order" := VInt (Z.min oc om) ]> cur)).
Proof.
  intros Hget Hoc Hom Hvc Hvm. unfold update_move_analysis.
  rewrite Hget, (getitem_lookup _ _ _ Hoc), Hom, bind_Ok_l.
  rewrite py_min_int, bind_Ok_l. cbv zeta.
  rewrite (getitem_lookup (<[ "order" := _ ]> cur) "visits" (VInt vc)) by (by rewrite lookup_insert_ne).
  by rewrite (getitem_lookup _ _ _ Hvm).
Qed.

(** C1 (as the code has it): two results for one move id with visit counts
    [v1 < v2] are merged into a node that holds no entry for it.  When the
    [v2] result arrives first the stored entry is the [v2] result (over the
    defaults) with [order] the minimum of the two orders.  When it arrives
    second the stored entry has every field the [v2] result carries,
    [order] included: the stored order is the [v2] result's own order, and
    the minimum only when the [v2] result carries none. *)
Theorem merge_two_visits (mvs : moves_t) (k : string) (r1 r2 : dict)
    (v1 v2 o1 o2 : Z) :
  moves_get mvs k = None ->
  r1 !! "visits" = Some (VInt v1) ->
  r2 !! "visits" = Some (VInt v2) ->
  v1 < v2 ->
  get_default r1 "order" (VInt 999) = VInt o1 ->
  get_default r2 "order" (VInt 999) = VInt o2 ->
  (exists mvs' e,
      deliver_both mvs r2 r1 k = Ok mvs' /\
      moves_get mvs' k = Some e /\
      e !! "visits" = Some (VInt v2) /\
      e !! "order" = Some (VInt (Z.min o1 o2)) /\
      forall f, f <> "order" -> e !! f = with_defaults r2 k !! f)
  /\
  (exists mvs' e,
      deliver_both mvs r1 r2 k = Ok mvs' /\
      moves_get mvs' k = Some e /\
      e !! "visits" = Some (VInt v2) /\
      (forall f v, r2 !! f = Some v -> e !! f = Some v) /\
      e !! "order" = Some (VInt (match r2 !! "order" with
                                 | Some _ => o2
                                 | None => Z.min o1 o2
                                 end))).
Proof.
  intros Hnew Hv1 Hv2 Hlt Ho1 Ho2. split.
  - (* the [v2] result first *)
    unfold deliver_both. rewrite update_move_analysis_new by done. cbn.
    erewrite (update_move_analysis_existing _ r1 (with_defaults r2 k) k o2 o1 v2 v1);
      [ | apply moves_get_set_eq | by rewrite with_defaults_order, Ho2
        | done | by apply with_defaults_field | done ].
    replace (v2 <? v1) with false by (symmetry; apply Z.ltb_ge; lia).
    eexists _, _. split; [reflexivity|].
    split; [apply moves_get_set_eq|].
    split; [|split].
    + rewrite lookup_insert_ne by done. by apply with_defaults_field.
    + rewrite lookup_insert_eq. by rewrite Z.min_comm.
    + intros f Hf. by rewrite lookup_insert_ne.
  - (* the [v2] result second *)
    unfold deliver_both. rewrite update_move_analysis_new by done. cbn.
    erewrite (update_move_analysis_existing _ r2 (with_defaults r1 k) k o1 o2 v1 v2);
      [ | apply moves_get_set_eq | by rewrite with_defaults_order, Ho1
        | done | by apply with_defaults_field | done ].
    replace (v1 <? v2) with true by (symmetry; apply Z.ltb_lt; lia).
    eexists _, _. split; [reflexivity|].
    split; [apply moves_get_set_eq|].
    split; [|split].
    + by apply lookup_union_Some_l.
    + intros f v Hf. by apply lookup_union_Some_l.
    + rewrite lookup_union. unfold get_default in Ho2.
      destruct (r2 !! "order") as [o|] eqn:E; cbn in Ho2.
      * subst o. by rewrite lookup_insert_eq.
      * by rewrite lookup_insert_eq.
Qed.

Lemma merge_two_visits_witness :
  exists mvs' e,
    deliver_both [] low_visits high_visits "D4" = Ok mvs' /\
    moves_get mvs' "D4" = Some e /\
    e !! "visits" = Some (VInt 20) /\
    (forall f v, high_visits !! f = Some v -> e !! f = Some v) /\
    e !! "order" = Some (VInt 3).
Proof.
  exact (proj2 (merge_two_visits [] "D4" low_visits high_visits 10 20 0 3
                  eq_refl eq_refl eq_refl eq_refl eq_refl eq_refl)).
Defined.

(** C1 as claimed fails when the results arrive in ascending order of
    visits: the ten-visit result has order 0, the twenty-visit result has
    order 3, and the stored order is 3, not the minimum 0. *)
Lemma merge_two_visits_order_not_min :
  exists mvs' e,
    deliver_both [] low_visits high_visits "D4" = Ok mvs' /\
    moves_get mvs' "D4" = Some e /\
    e !! "order" = Some (VInt 3) /\
    e !! "order" <> Some (VInt (Z.min 0 3)).
Proof.
  eexists _, _. split; [vm_compute; reflexivity|].
  split; [vm_compute; reflexivity|].
  split; [vm_compute; reflexivity|].
  vm_compute. discriminate.
Qed.

(** ** [player_sign] *)

(** C5 (as the code has it): [player_sign] returns 1 for ["B"], -1 for
    ["W"] and 0 for [None]; every other value raises. *)
Theorem player_sign_cases (v : value) :
  v <> VStr "B" -> v <> VStr "W" -> v <> VNone ->
  raises (player_sign v) /\
  player_sign (VStr "B") = Ok 1 /\
  player_sign (VStr "W") = Ok (-1) /\
  player_sign VNone = Ok 0.
Proof.
  intros Hb Hw Hn. split; [|done].
  destruct v as [| n | f | s | l]; cbn.
  - contradiction.
  - by exists KeyError.
  - by exists KeyError.
  - destruct (String.eqb_spec s "B") as [->|_]; [contradiction|].
    destruct (String.eqb_spec s "W") as [->|_]; [contradiction|].
    by exists KeyError.
  - by exists TypeError.
Qed.

Lemma player_sign_cases_witness :
  raises (player_sign (VStr "X")) /\
  player_sign (VStr "B") = Ok 1 /\
  player_sign (VStr "W") = Ok (-1) /\
  player_sign VNone = Ok 0.
Proof.
  apply (player_sign_cases (VStr "X")); discriminate.
Defined.

(** C5 as claimed fails at [None]: it is neither ["B"] nor ["W"], and the
    lookup returns the sign 0 instead of raising. *)
Lemma player_sign_None_returns :
  VNone <> VStr "B" /\ VNone <> VStr "W" /\
  player_sign VNone = Ok 0 /\ ~ raises (player_sign VNone).
Proof.
  repeat split; try discriminate.
  intros [e He]. discriminate.
Qed.

(** ** [points_lost] *)

Lemma float_of_int_one : float_of_int 1 = Ok 1%float.
Proof. reflexivity. Qed.

Lemma float_of_int_minus_one : float_of_int (-1) = Ok (-1)%float.
Proof. reflexivity. Qed.

(** C3 (as the code has it): for a node with a defining move whose player
    is ["B"] or ["W"], ready together with its parent, both root statistics
    carrying a float [scoreLead], [points_lost] is the sign of the mover
    times (parent score - own score), with sign +1 for Black and -1 for
    White.  Parent +3.0, child +1.0, Black gives 2.0; parent -2.0, child
    -5.0, White gives -3.0.  Without a move, without a parent, or when
    either node is not ready, the result is [None]. *)
Theorem points_lost_formula (n : GameNode) :
  (forall m p rn rp sn sp,
      move n = Some m -> parent n = Some p ->
      analysis_root n = Some rn -> analysis_root p = Some rp ->
      rn !! "scoreLead" = Some (VFloat sn) ->
      rp !! "scoreLead" = Some (VFloat sp) ->
      (player m = VStr "B" ->
       points_lost n = Ok (Some (VFloat (1 * (sp - sn))))) /\
      (player m = VStr "W" ->
       points_lost n = Ok (Some (VFloat ((-1) * (sp - sn))))))
  /\
  (move n = None \/ parent n = None \/ analysis_ready n = false \/
   (exists p, parent n = Some p /\ analysis_ready p = false) ->
   points_lost n = Ok None)
  /\
  points_lost black_example = Ok (Some (VFloat 2)) /\
  points_lost white_example = Ok (Some (VFloat (-3))).
Proof.
  split; [|split; [|split; reflexivity]].
  - intros m p rn rp sn sp Hm Hp Hrn Hrp Hsn Hsp.
    unfold points_lost, analysis_ready, score, get_default.
    rewrite Hm, Hp, Hrn, Hrp, Hsn, Hsp. cbn [andb default].
    split; intros ->; reflexivity.
  - unfold points_lost.
    intros [Hm | [Hp | [Hr | (p & Hp & Hr)]]].
    + by rewrite Hm.
    + rewrite Hp. by destruct (move n).
    + rewrite Hr. by destruct (move n), (parent n).
    + rewrite Hp, Hr, andb_false_r. by destruct (move n).
Qed.

Lemma points_lost_formula_witness :
  points_lost white_example = Ok (Some (VFloat ((-1) * (-2 - -5)))).
Proof.
  exact (proj2 (proj1 (points_lost_formula white_example)
                  (D4 white) (scored_root (-2)) _ _ (-5)%float (-2)%float
                  eq_refl eq_refl eq_refl eq_refl eq_refl eq_refl)
               eq_refl).
Defined.

(** C3 as claimed fails on its second example: White moving from -2.0 to
    -5.0 has [points_lost] -3.0, not 3.0. *)
Lemma points_lost_white_example :
  move white_example = Some (D4 white) /\
  score (scored_root (-2)) = VFloat (-2) /\
  score white_example = VFloat (-5) /\
  points_lost white_example = Ok (Some (VFloat (-3))) /\
  points_lost white_example <> Ok (Some (VFloat 3)).
Proof.
  repeat split.
  intros H.
  apply (f_equal (fun r => match r with
                           | Ok (Some (VFloat x)) => PrimFloat.ltb x 0
                           | _ => false
                           end)) in H.
  vm_compute in H. discriminate.
Qed.

(** ** [set_analysis] *)

Lemma moves_get_reset_orders (mvs : moves_t) (k : string) :
  moves_get (reset_orders mvs) k
  = (fun d : dict => <[ "order" := VInt 999 ]> d) <$> moves_get mvs k.
Proof.
  induction mvs as [|[k' d] mvs IH]; simpl; [done|].
  destruct (String.eqb k' k); [done | apply IH].
Qed.

(** Merging the move infos leaves alone every move id they do not name. *)
Lemma merge_infos_other (infos : list dict) (mvs mvs' : moves_t) (k : string) :
  merge_infos mvs infos = Ok mvs' ->
  (forall m, In m infos -> m !! "move" <> Some (VStr k)) ->
  moves_get mvs' k = moves_get mvs k.
Proof.
  unfold merge_infos. revert mvs.
  induction infos as [|ma infos IH]; intros mvs H Hnot; simpl in H.
  - by injection H as <-.
  - inv_bind H. rename a into mvs1.
    inv_bind Ha. rename a into v. inv_bind Ha. rename a into k0.
    rewrite (IH mvs1 H) by (intros m Hm; apply Hnot; by right).
    apply (update_move_analysis_other _ _ _ _ _ Ha).
    intros ->. apply (Hnot ma); [by left|].
    apply getitem_Ok in Ha0. destruct v; try discriminate.
    injection Ha1 as ->. done.
Qed.

(** What a whole-position merge (no [refine_move]) does, step by step. *)
Lemma set_analysis_inv (self self' : GameNode) (aj aj' : AnalysisJson) (alt : bool) :
  set_analysis self aj None alt = Ok (self', aj') ->
  exists infos,
    (if alt then mapM add_offset (moveInfos aj) else Ok (moveInfos aj)) = Ok infos /\
    merge_infos (if negb alt then reset_orders (analysis_moves self)
                 else analysis_moves self) infos
      = Ok (analysis_moves self') /\
    moveInfos aj' = infos /\
    move self' = move self /\
    ownership self' = json_ownership aj /\
    policy self' = json_policy aj /\
    analysis_root self'
      = (if alt then analysis_root self else Some (rootInfo aj')) /\
    match parent self, move self with
    | Some p, Some m =>
        exists pvtail pmvs,
          first_pv infos = Ok pvtail /\
          rootInfo aj' = <[ "pv" := VList (gtp m :: pvtail) ]> (rootInfo aj) /\
          update_move_analysis (analysis_moves p) (rootInfo aj') (gtp m) = Ok pmvs /\
          parent self' = Some (set_moves p pmvs)
    | _, _ => rootInfo aj' = rootInfo aj /\ parent self' = parent self
    end.
Proof.
  unfold set_analysis. intros H.
  inv_bind H. rename a into infos. exists infos. split; [done|].
  inv_bind H. rename a into mvs.
  destruct (parent self) as [p|], (move self) as [m|].
  - inv_bind H. rename a into pvtail. inv_bind H. rename a into pmvs.
    injection H as <- <-. cbn. repeat split; try done.
    by exists pvtail, pmvs.
  - injection H as <- <-. cbn. by repeat split.
  - injection H as <- <-. cbn. by repeat split.
  - injection H as <- <-. cbn. by repeat split.
Qed.

(** C10: a whole-position merge in alternatives mode overwrites the node's
    [ownership] and [policy] with the reply's ([None] when the reply has
    none), exactly as a primary merge does; only [analysis["root"]] is kept. *)
Theorem alternatives_overwrite_ownership_policy
    (self self' : GameNode) (aj aj' : AnalysisJson) :
  set_analysis self aj None true = Ok (self', aj') ->
  ownership self' = json_ownership aj /\
  policy self' = json_policy aj /\
  analysis_root self' = analysis_root self /\
  forall (prim prim' : GameNode) (pj' : AnalysisJson),
    set_analysis prim aj None false = Ok (prim', pj') ->
    ownership prim' = ownership self' /\ policy prim' = policy self'.
Proof.
  intros H. apply set_analysis_inv in H.
  destruct H as (infos & _ & _ & _ & _ & Hown & Hpol & Hroot & _).
  repeat split; try done.
  - apply set_analysis_inv in H.
    destruct H as (? & _ & _ & _ & _ & Hown' & _). congruence.
  - apply set_analysis_inv in H.
    destruct H as (? & _ & _ & _ & _ & _ & Hpol' & _). congruence.
Qed.

(** C7: after a primary merge (no [refine_move], not alternatives mode) every
    entry stored before under a move id that the reply's [moveInfos] do not
    name has [order] 999 and is otherwise unchanged, and [analysis["root"]]
    is the reply's [rootInfo].  The node holds that very dictionary: it
    agrees with the delivered root statistics on every field but [pv], which
    the back-propagation into the parent writes afterwards, and on all
    fields for a node without parent or move. *)
Theorem primary_merge_resets (self self' : GameNode) (aj aj' : AnalysisJson) :
  set_analysis self aj None false = Ok (self', aj') ->
  (forall k e,
      moves_get (analysis_moves self) k = Some e ->
      (forall m, In m (moveInfos aj) -> m !! "move" <> Some (VStr k)) ->
      exists e',
        moves_get (analysis_moves self') k = Some e' /\
        e' !! "order" = Some (VInt 999) /\
        forall f, f <> "order" -> e' !! f = e !! f)
  /\ analysis_root self' = Some (rootInfo aj')
  /\ (forall f, f <> "pv" -> rootInfo aj' !! f = rootInfo aj !! f)
  /\ (parent self = None \/ move self = None -> rootInfo aj' = rootInfo aj).
Proof.
  intros H. apply set_analysis_inv in H.
  destruct H as (infos & Hinfos & Hmerge & _ & _ & _ & _ & Hroot & Hpar).
  cbn in Hinfos, Hmerge, Hroot. injection Hinfos as <-.
  split; [|split; [done|split]].
  - intros k e Hk Hnot.
    exists (<[ "order" := VInt 999 ]> e).
    rewrite (merge_infos_other _ _ _ _ Hmerge Hnot), moves_get_reset_orders, Hk.
    split; [done|]. split; [apply lookup_insert_eq|].
    intros f Hf. by rewrite lookup_insert_ne.
  - intros f Hf. destruct (parent self) as [p|], (move self) as [m|];
      try (destruct Hpar as [-> _]; done).
    destruct Hpar as (pvtail & pmvs & _ & -> & _).
    by rewrite lookup_insert_ne.
  - intros [Hp | Hm].
    + rewrite Hp in Hpar. by destruct Hpar.
    + rewrite Hm in Hpar. destruct (parent self); by destruct Hpar.
Qed.

Lemma py_min_cases (a b o : value) : py_min a b = Ok o -> o = a \/ o = b.
Proof.
  unfold py_min. intros H. inv_bind H. injection H as <-.
  destruct a0; auto.
Qed.

(** Where the order of the entry stored by one update comes from. *)
Lemma update_move_analysis_order (mvs mvs' : moves_t) (ma e : dict) (k : string) :
  update_move_analysis mvs ma k = Ok mvs' ->
  is_Some (ma !! "order") ->
  moves_get mvs' k = Some e ->
  e !! "order" = ma !! "order" \/
  exists cur, moves_get mvs k = Some cur /\ e !! "order" = cur !! "order".
Proof.
  unfold update_move_analysis. intros H [o Ho] He.
  destruct (moves_get mvs k) as [cur|] eqn:Hcur.
  - inv_bind H. rename a into co. inv_bind H. rename a into o'.
    cbv zeta in H. inv_bind H. inv_bind H. inv_bind H. injection H as <-.
    rewrite moves_get_set_eq in He. injection He as <-.
    assert (Hmin : o' = co \/ o' = o).
    { unfold get_default in Ha0. rewrite Ho in Ha0. by apply py_min_cases. }
    apply getitem_Ok in Ha.
    destruct a1.
    + left. rewrite Ho. by apply lookup_union_Some_l.
    + rewrite lookup_insert_eq. destruct Hmin as [-> | ->].
      * right. by exists cur.
      * left. by rewrite Ho.
  - injection H as <-. rewrite moves_get_set_eq in He. injection He as <-.
    left. rewrite Ho. by apply with_defaults_field.
Qed.

(** Every order stored under [k] by a merge of [infos] is either one that
    was stored before or the order of one of the infos naming [k]. *)
Lemma merge_infos_order (G : option value -> Prop) (k : string)
    (infos : list dict) :
  (forall m, In m infos -> is_Some (m !! "order")) ->
  (forall m, In m infos -> m !! "move" = Some (VStr k) -> G (m !! "order")) ->
  forall mvs mvs' e,
    merge_infos mvs infos = Ok mvs' ->
    (forall e0, moves_get mvs k = Some e0 -> G (e0 !! "order")) ->
    moves_get mvs' k = Some e ->
    G (e !! "order").
Proof.
  unfold merge_infos.
  induction infos as [|ma infos IH]; intros Hord HG mvs mvs' e H Hold He;
    simpl in H.
  - injection H as <-. auto.
  - inv_bind H. rename a into mvs1.
    inv_bind Ha. rename a into v. inv_bind Ha. rename a into k0.
    apply getitem_Ok in Ha0. destruct v; try discriminate.
    injection Ha1 as ->.
    apply (IH (fun m Hm => Hord m (or_intror Hm))
              (fun m Hm => HG m (or_intror Hm)) mvs1 mvs' e H); [|done].
    intros e1 He1.
    destruct (String.eqb_spec k0 k) as [-> | Hne].
    + destruct (update_move_analysis_order _ _ _ _ _ Ha
                  (Hord ma (or_introl eq_refl)) He1)
        as [-> | (cur & Hcur & ->)].
      * apply HG; [by left | done].
      * by apply Hold.
    + rewrite (update_move_analysis_other _ _ _ _ _ Ha Hne) in He1. auto.
Qed.

Lemma mapM_add_offset_In (infos infos' : list dict) (m' : dict) :
  mapM add_offset infos = Ok infos' ->
  In m' infos' ->
  exists m o o',
    In m infos /\ m !! "order" = Some o /\
    py_add_int o alternatives_offset = Ok o' /\
    m' = <[ "order" := o' ]> m.
Proof.
  revert infos'. induction infos as [|m infos IH]; intros infos' H Hin; simpl in H.
  - injection H as <-. destruct Hin.
  - inv_bind H. inv_bind H. injection H as <-.
    destruct Hin as [<- | Hin].
    + unfold add_offset in Ha. inv_bind Ha. inv_bind Ha. injection Ha as <-.
      apply getitem_Ok in Ha1. exists m, a1, a2. split; [by left | done].
    + destruct (IH _ Ha0 Hin) as (m0 & o & o' & Hm0 & Hrest).
      exists m0, o, o'. split; [by right | done].
Qed.

(** C8: after a whole-position merge in alternatives mode, every entry the
    merge created (no entry under that move id before) has the order of a
    move info of the reply for that move id, shifted by the fixed offset: for
    an integer order [n] the stored order is [n + offset], at least the
    offset more than declared.  [analysis["root"]] is as before the merge. *)
Theorem alternatives_merge_offset (self self' : GameNode) (aj aj' : AnalysisJson) :
  set_analysis self aj None true = Ok (self', aj') ->
  analysis_root self' = analysis_root self /\
  forall k e,
    moves_get (analysis_moves self) k = None ->
    moves_get (analysis_moves self') k = Some e ->
    exists m o o',
      In m (moveInfos aj) /\ m !! "move" = Some (VStr k) /\
      m !! "order" = Some o /\
      py_add_int o alternatives_offset = Ok o' /\
      e !! "order" = Some o' /\
      forall n, o = VInt n ->
        exists n', e !! "order" = Some (VInt n') /\ n + alternatives_offset <= n'.
Proof.
  intros H. apply set_analysis_inv in H.
  destruct H as (infos & Hinfos & Hmerge & _ & _ & _ & _ & Hroot & _).
  cbn in Hmerge. split; [done|].
  intros k e Hnew He.
  pose (G := fun ord : option value =>
    exists m o o',
      In m (moveInfos aj) /\ m !! "move" = Some (VStr k) /\
      m !! "order" = Some o /\
      py_add_int o alternatives_offset = Ok o' /\ ord = Some o').
  assert (HG : G (e !! "order")).
  { apply (merge_infos_order G k infos) with (mvs := analysis_moves self)
      (mvs' := analysis_moves self'); try done.
    - intros m' Hm'.
      destruct (mapM_add_offset_In _ _ _ Hinfos Hm') as (m & o & o' & _ & _ & _ & ->).
      rewrite lookup_insert_eq. by eexists.
    - intros m' Hm' Hmove.
      destruct (mapM_add_offset_In _ _ _ Hinfos Hm') as (m & o & o' & Hm & Ho & Ho' & ->).
      rewrite lookup_insert_ne in Hmove by done.
      exists m, o, o'. by rewrite lookup_insert_eq.
    - intros e0 He0. congruence. }
  destruct HG as (m & o & o' & Hm & Hmove & Ho & Ho' & Hord).
  exists m, o, o'. repeat split; try done.
  intros n ->. cbn in Ho'. injection Ho' as <-.
  exists (n + alternatives_offset). split; [done | lia].
Qed.

(** X21: the frame of a refine merge.  With a [refine_move] the record
    [{"pv": [refine_move] + pvtail, **rootInfo}] is merged into the entry of
    that move id by [update_move_analysis] (a [pv] among the root statistics
    takes the place of the one built, see C4).  No other entry changes, nor
    [analysis["root"]], [ownership], [policy], the parent or the reply. *)
Theorem refine_merge_frame (self self' : GameNode) (aj aj' : AnalysisJson)
    (rm : Move) (alt : bool) :
  set_analysis self aj (Some rm) alt = Ok (self', aj') ->
  exists pvtail ma,
    first_pv (moveInfos aj) = Ok pvtail /\
    ma = rootInfo aj ∪ {[ "pv" := VList (gtp rm :: pvtail) ]} /\
    update_move_analysis (analysis_moves self) ma (gtp rm)
      = Ok (analysis_moves self') /\
    ma !! "pv" = Some (default (VList (gtp rm :: pvtail)) (rootInfo aj !! "pv")) /\
    (forall f, f <> "pv" -> ma !! f = rootInfo aj !! f) /\
    (forall k, k <> gtp rm ->
       moves_get (analysis_moves self') k = moves_get (analysis_moves self) k) /\
    analysis_root self' = analysis_root self /\
    ownership self' = ownership self /\
    policy self' = policy self /\
    parent self' = parent self /\
    aj' = aj.
Proof.
  unfold set_analysis. intros H.
  inv_bind H. rename a into pvtail. inv_bind H. rename a into mvs.
  injection H as <- <-.
  exists pvtail, (rootInfo aj ∪ {[ "pv" := VList (gtp rm :: pvtail) ]}).
  repeat split; try done.
  - rewrite lookup_union. destruct (rootInfo aj !! "pv"); by simplify_map_eq.
  - intros f Hf. rewrite lookup_union, lookup_singleton_ne by done.
    by destruct (rootInfo aj !! f).
  - intros k Hk. cbn. by apply (update_move_analysis_other _ _ _ _ _ Ha0).
Qed.

(** ** Sorting keeps the elements *)

Lemma mapM_In {A B : Type} (f : A -> result B) (l : list A) (l' : list B) (a : A) :
  mapM f l = Ok l' -> In a l -> exists b, f a = Ok b /\ In b l'.
Proof.
  revert l'. induction l as [|x l IH]; intros l' H Hin; simpl in H; [destruct Hin|].
  inv_bind H. inv_bind H. injection H as <-.
  destruct Hin as [-> | Hin].
  - exists a0. split; [done | by left].
  - destruct (IH _ Ha0 Hin) as (b & Hb & Hin'). exists b. split; [done | by right].
Qed.

Lemma mapM_length {A B : Type} (f : A -> result B) (l : list A) (l' : list B) :
  mapM f l = Ok l' -> length l' = length l.
Proof.
  revert l'. induction l as [|x l IH]; intros l' H; simpl in H.
  - by injection H as <-.
  - inv_bind H. inv_bind H. injection H as <-. simpl. f_equal. by apply IH.
Qed.

Lemma insert_by_In {K A : Type} (lt : K -> K -> result bool)
    (x y : K * A) (l l' : list (K * A)) :
  insert_by lt x l = Ok l' -> In y (x :: l) -> In y l'.
Proof.
  revert l'. induction l as [|z l IH]; intros l' H Hin; simpl in H.
  - by injection H as <-.
  - inv_bind H. destruct a.
    + by injection H as <-.
    + inv_bind H. injection H as <-.
      destruct Hin as [-> | [-> | Hin]].
      * right. apply (IH _ Ha0). by left.
      * by left.
      * right. apply (IH _ Ha0). by right.
Qed.

Lemma insert_by_length {K A : Type} (lt : K -> K -> result bool)
    (x : K * A) (l l' : list (K * A)) :
  insert_by lt x l = Ok l' -> length l' = S (length l).
Proof.
  revert l'. induction l as [|z l IH]; intros l' H; simpl in H.
  - by injection H as <-.
  - inv_bind H. destruct a.
    + by injection H as <-.
    + inv_bind H. injection H as <-. simpl. f_equal. by apply IH.
Qed.

Lemma sort_keyed_In {K A : Type} (lt : K -> K -> result bool)
    (y : K * A) (l l' : list (K * A)) :
  sort_keyed lt l = Ok l' -> In y l -> In y l'.
Proof.
  unfold sort_keyed.
  assert (Hgen : forall acc, foldM (fun acc x => insert_by lt x acc) l acc = Ok l' ->
                             In y l \/ In y acc -> In y l').
  { induction l as [|x l IH]; intros acc H Hin; simpl in H.
    - injection H as <-. by destruct Hin.
    - inv_bind H. apply (IH _ H).
      destruct Hin as [[-> | Hin] | Hin]; auto.
      + right. apply (insert_by_In _ _ _ _ _ Ha). by left.
      + right. apply (insert_by_In _ _ _ _ _ Ha). by right. }
  intros H Hin. apply (Hgen [] H). by left.
Qed.

Lemma sort_keyed_length {K A : Type} (lt : K -> K -> result bool)
    (l l' : list (K * A)) :
  sort_keyed lt l = Ok l' -> length l' = length l.
Proof.
  unfold sort_keyed.
  assert (Hgen : forall acc, foldM (fun acc x => insert_by lt x acc) l acc = Ok l' ->
                             length l' = (length l + length acc)%nat).
  { induction l as [|x l IH]; intros acc H; simpl in H.
    - by injection H as <-.
    - inv_bind H. rewrite (IH _ H), (insert_by_length _ _ _ _ Ha). simpl. lia. }
  intros H. rewrite (Hgen [] H). simpl. lia.
Qed.

Lemma py_sorted_In {K A : Type} (lt : K -> K -> result bool)
    (key : A -> result K) (l l' : list A) (a : A) :
  py_sorted lt key l = Ok l' -> In a l -> In a l'.
Proof.
  unfold py_sorted. intros H Hin.
  inv_bind H. inv_bind H. injection H as <-.
  destruct (mapM_In _ _ _ _ Ha Hin) as ([k a'] & Hk & Hin').
  inv_bind Hk. injection Hk as <- <-.
  apply (sort_keyed_In lt _ _ _ Ha0) in Hin'.
  apply in_map_iff. by eexists (_, a).
Qed.

Lemma py_sorted_length {K A : Type} (lt : K -> K -> result bool)
    (key : A -> result K) (l l' : list A) :
  py_sorted lt key l = Ok l' -> length l' = length l.
Proof.
  unfold py_sorted. intros H.
  inv_bind H. inv_bind H. injection H as <-.
  by rewrite length_map, (sort_keyed_length _ _ _ Ha0), (mapM_length _ _ _ Ha).
Qed.

(** ** [candidate_moves] *)

(** Every stored entry shows up among the candidates, with [pointsLost]
    added when the entry has none. *)
Lemma candidate_moves_entry (n : GameNode) (k : string) (e : dict) (l : list dict) :
  analysis_ready n = true ->
  moves_get (analysis_moves n) k = Some e ->
  candidate_moves n = Ok l ->
  exists d, In d l /\ forall f, f <> "pointsLost" -> d !! f = e !! f.
Proof.
  unfold analysis_ready, candidate_moves.
  destruct (analysis_root n) as [root|]; [intros _ | discriminate].
  intros He H.
  destruct (analysis_moves n) as [|kd mvs] eqn:Hmvs; [discriminate|].
  rewrite <- Hmvs in *. clear Hmvs kd mvs.
  inv_bind H. rename a into root_score. inv_bind H. rename a into ds.
  destruct (mapM_In _ _ _ _ Ha0 (moves_get_In _ _ _ He)) as (d & Hd & Hin).
  exists d. split; [by apply (py_sorted_In _ _ _ _ _ H)|].
  unfold with_points_lost in Hd. repeat inv_bind Hd. injection Hd as <-.
  intros f Hf. rewrite lookup_union, lookup_singleton_ne by done.
  by destruct (e !! f).
Qed.

(** An update always leaves an entry under its move id. *)
Lemma update_move_analysis_stored (mvs mvs' : moves_t) (ma : dict) (k : string) :
  update_move_analysis mvs ma k = Ok mvs' ->
  exists e, moves_get mvs' k = Some e.
Proof.
  unfold update_move_analysis. intros H.
  destruct (moves_get mvs k) as [cur|].
  - repeat inv_bind H. injection H as <-. eexists. apply moves_get_set_eq.
  - injection H as <-. eexists. apply moves_get_set_eq.
Qed.

(** When the update creates the entry, or replaces one with fewer visits,
    the stored entry has every field of the delivered record. *)
Lemma update_move_analysis_replaced (mvs mvs' : moves_t) (ma e : dict)
    (k f : string) (v : value) :
  update_move_analysis mvs ma k = Ok mvs' ->
  (forall cur, moves_get mvs k = Some cur ->
     exists cv mv, cur !! "visits" = Some cv /\ ma !! "visits" = Some mv /\
                   py_lt cv mv = Ok true) ->
  moves_get mvs' k = Some e ->
  ma !! f = Some v ->
  e !! f = Some v.
Proof.
  unfold update_move_analysis. intros H Hfewer He Hf.
  destruct (moves_get mvs k) as [cur|].
  - destruct (Hfewer cur eq_refl) as (cv & mv & Hcv & Hmv & Hlt).
    inv_bind H. inv_bind H. cbv zeta in H.
    rewrite (getitem_lookup (<[ "order" := _ ]> cur) "visits" cv) in H
      by (by rewrite lookup_insert_ne).
    rewrite (getitem_lookup _ _ _ Hmv), !bind_Ok_l, Hlt, bind_Ok_l in H.
    injection H as <-. rewrite moves_get_set_eq in He. injection He as <-.
    by apply lookup_union_Some_l.
  - injection H as <-. rewrite moves_get_set_eq in He. injection He as <-.
    by apply with_defaults_field.
Qed.

Lemma first_pv_add_offset (infos infos' : list dict) :
  mapM add_offset infos = Ok infos' -> first_pv infos' = first_pv infos.
Proof.
  destruct infos as [|m infos]; simpl; intros H.
  - by injection H as <-.
  - inv_bind H. inv_bind H. injection H as <-.
    unfold add_offset in Ha. repeat inv_bind Ha. injection Ha as <-.
    unfold first_pv, getitem. by rewrite lookup_insert_ne.
Qed.

(** C2 (as the code has it): when a node with a parent and a move completes
    a primary or alternatives merge, the delivered root statistics, with
    [pv] set to the node's move followed by the first move info's [pv], are
    merged into the parent's entry of the node's move id by
    [update_move_analysis], and nothing else of the parent changes.  The
    parent then holds an entry for that move id, and the candidates of a
    ready parent contain it.  Its [pv] begins with the move when the merge
    created the entry or replaced one with fewer visits; an entry with at
    least as many visits keeps the [pv] it had. *)
Theorem parent_back_propagation (self self' p : GameNode) (m : Move)
    (aj aj' : AnalysisJson) (alt : bool) :
  set_analysis self aj None alt = Ok (self', aj') ->
  parent self = Some p ->
  move self = Some m ->
  exists pvtail p' e,
    first_pv (moveInfos aj) = Ok pvtail /\
    rootInfo aj' = <[ "pv" := VList (gtp m :: pvtail) ]> (rootInfo aj) /\
    parent self' = Some p' /\
    update_move_analysis (analysis_moves p) (rootInfo aj') (gtp m)
      = Ok (analysis_moves p') /\
    analysis_root p' = analysis_root p /\
    policy p' = policy p /\ ownership p' = ownership p /\
    moves_get (analysis_moves p') (gtp m) = Some e /\
    ((forall cur, moves_get (analysis_moves p) (gtp m) = Some cur ->
        exists cv rv, cur !! "visits" = Some cv /\
                      rootInfo aj !! "visits" = Some rv /\
                      py_lt cv rv = Ok true) ->
     e !! "pv" = Some (VList (gtp m :: pvtail))) /\
    (forall l, analysis_ready p = true -> candidate_moves p' = Ok l ->
       exists d, In d l /\ forall f, f <> "pointsLost" -> d !! f = e !! f).
Proof.
  intros H Hp Hm. apply set_analysis_inv in H.
  destruct H as (infos & Hinfos & _ & _ & _ & _ & _ & _ & Hpar).
  rewrite Hp, Hm in Hpar.
  destruct Hpar as (pvtail & pmvs & Hpv & Hroot & Hupd & Hp').
  destruct (update_move_analysis_stored _ _ _ _ Hupd) as [e He].
  exists pvtail, (set_moves p pmvs), e.
  split.
  { destruct alt; [|by injection Hinfos as <-].
    by rewrite <- (first_pv_add_offset _ _ Hinfos). }
  repeat split; try done.
  - intros Hfewer.
    apply (update_move_analysis_replaced _ _ _ _ _ "pv" _ Hupd); [|done|].
    + intros cur Hcur. destruct (Hfewer cur Hcur) as (cv & rv & Hcv & Hrv & Hlt).
      exists cv, rv. rewrite Hroot, lookup_insert_ne; done.
    + rewrite Hroot. apply lookup_insert_eq.
  - intros l Hready Hl.
    by apply (candidate_moves_entry (set_moves p pmvs) (gtp m) e l).
Qed.

Lemma root_candidate_fields (root : dict) (top : Move) :
  root_candidate root top !! "move" = Some (VStr (gtp top)) /\
  root_candidate root top !! "pointsLost" = Some (VInt 0) /\
  root_candidate root top !! "order" = Some (VInt 0) /\
  root_candidate root top !! "pv" = Some (VList [gtp top]).
Proof. unfold root_candidate. by simplify_map_eq. Qed.

Lemma policy_ranking_absent (n : GameNode) :
  policy n = None \/ policy n = Some [] -> policy_ranking n = Ok None.
Proof. unfold policy_ranking. by intros [-> | ->]. Qed.

(** With a non-empty policy the ranking, when it is produced, is a
    non-empty list: the pass entry is always there. *)
Lemma policy_ranking_present (n : GameNode) (p0 : float) (ps : list float)
    (pr : option (list (float * Move))) :
  policy n = Some (p0 :: ps) ->
  policy_ranking n = Ok pr ->
  exists pm rest, pr = Some (pm :: rest).
Proof.
  unfold policy_ranking. intros -> H.
  destruct (board_size n) as [szx szy].
  inv_bind H. inv_bind H. injection H as <-.
  apply py_sorted_length in Ha0. rewrite length_app in Ha0. simpl in Ha0.
  destruct a0 as [|pm rest]; [simpl in Ha0; lia|].
  by exists pm, rest.
Qed.

(** C9: a node that is not ready has no candidates.  A ready node without
    move entries has exactly one candidate, built from the root statistics:
    its move is the top entry of [policy_ranking] when the node has a
    policy and the pass move otherwise, its point loss is 0 and its order
    is 0. *)
Theorem candidate_fallback (n : GameNode) :
  (analysis_ready n = false -> candidate_moves n = Ok []) /\
  (forall root pr,
      analysis_root n = Some root ->
      analysis_moves n = [] ->
      policy_ranking n = Ok pr ->
      exists top d,
        candidate_moves n = Ok [d] /\
        match policy n with
        | Some (_ :: _) => exists pm rest, pr = Some (pm :: rest) /\ top = snd pm
        | _ => pr = None /\ top = mkMove None default_player
        end /\
        d !! "move" = Some (VStr (gtp top)) /\
        d !! "pointsLost" = Some (VInt 0) /\
        d !! "order" = Some (VInt 0)).
Proof.
  split.
  - unfold analysis_ready, candidate_moves.
    by destruct (analysis_root n).
  - intros root pr Hroot Hmvs Hpr.
    unfold candidate_moves. rewrite Hroot, Hmvs, Hpr, bind_Ok_l.
    set (top := match pr with
                | Some (pm :: _) => snd pm
                | _ => mkMove None default_player
                end).
    exists top, (root_candidate root top). split; [reflexivity|].
    split; [|by destruct (root_candidate_fields root top) as (? & ? & ? & _)].
    subst top.
    destruct (policy n) as [[|p0 ps]|] eqn:Hpol.
    + rewrite policy_ranking_absent in Hpr by auto. by injection Hpr as <-.
    + destruct (policy_ranking_present _ _ _ _ Hpol Hpr) as (pm & rest & ->).
      by exists pm, rest.
    + rewrite policy_ranking_absent in Hpr by auto. by injection Hpr as <-.
Qed.

(** ** [move_policy_stats] *)

(** What the search over the ranking finds: the first entry whose move
    equals the node's move, with its 0-based position. *)
Lemma find_move_Some (m : Move) (ranking : list (float * Move))
    (ix0 ix : Z) (p : float) :
  find_move m ranking ix0 = Some (ix, p) ->
  exists (i : nat) (m' : Move),
    ix = ix0 + Z.of_nat i /\
    ranking !! i = Some (p, m') /\ Move_eqb m' m = true /\
    forall (j : nat) q mj, (j < i)%nat -> ranking !! j = Some (q, mj) ->
                           Move_eqb mj m = false.
Proof.
  revert ix0. induction ranking as [|[q m0] ranking IH]; intros ix0 H; simpl in H.
  - discriminate.
  - destruct (Move_eqb m0 m) eqn:E.
    + injection H as <- <-. exists 0%nat, m0.
      repeat split; [lia | done | lia].
    + destruct (IH _ H) as (i & m' & -> & Hi & Hm' & Hfirst).
      exists (S i), m'. repeat split; [lia | done | done |].
      intros [|j] q' mj Hj Hlook; simpl in Hlook.
      * by injection Hlook as <- <-.
      * apply (Hfirst j q'); [lia | done].
Qed.

Lemma find_move_None (m : Move) (ranking : list (float * Move)) (ix0 : Z) :
  find_move m ranking ix0 = None ->
  forall q m', In (q, m') ranking -> Move_eqb m' m = false.
Proof.
  revert ix0. induction ranking as [|[q0 m0] ranking IH]; intros ix0 H q m' Hin;
    simpl in H; [destruct Hin|].
  destruct (Move_eqb m0 m) eqn:E; [discriminate|].
  destruct Hin as [Heq | Hin]; [by injection Heq as <- <- | by eapply IH].
Qed.

(** With a ranking at hand the lookup behaves as described: the 1-based
    rank and probability of the first matching entry, else the sentinel. *)
Lemma move_policy_stats_ranked (n p : GameNode) (m : Move)
    (ranking : list (float * Move)) :
  move n = Some m -> parent n = Some p ->
  policy_ranking p = Ok (Some ranking) ->
  move_policy_stats n =
    match find_move m ranking 0 with
    | Some (ix, prob) => Ok (Some (ix + 1), prob, ranking)
    | None => Ok (None, 0%float, [])
    end.
Proof.
  intros Hm Hp Hr. unfold move_policy_stats. by rewrite Hm, Hp, Hr.
Qed.

(** C6 (the code at the failing input): for a node with a move whose parent
    has no policy data, [policy_ranking] is [None] and iterating over it
    raises [TypeError]; the sentinel is not returned. *)
Theorem move_policy_stats_without_policy (n p : GameNode) (m : Move) :
  move n = Some m ->
  parent n = Some p ->
  policy p = None \/ policy p = Some [] ->
  move_policy_stats n = Raise TypeError.
Proof.
  intros Hm Hp Hpol. unfold move_policy_stats.
  by rewrite Hm, Hp, (policy_ranking_absent p Hpol).
Qed.

(** * Further properties of the analysis code *)

(** ** [order_children] *)

Lemma mapM_Ok_map {A B : Type} (f : A -> B) (l : list A) :
  mapM (fun a => Ok (f a)) l = Ok (map f l).
Proof.
  induction l as [|a l IH]; cbn; [done|]. by rewrite IH.
Qed.

Lemma auto_undo_key_lt (a b : option bool) :
  py_lt (auto_undo_key a) (auto_undo_key b) = Ok (Nat.ltb (group a) (group b)).
Proof. destruct a as [[|]|], b as [[|]|]; vm_compute; reflexivity. Qed.

Section OrderChildren.
Context {A : Type} (auto_undo : A -> option bool).

Local Abbreviation keyed_child := (keyed_child auto_undo).
Local Abbreviation in_group := (in_group auto_undo).
Local Abbreviation grouped := (grouped auto_undo).

(** The scan of the insertion passes every child of a group that is not
    later than the new child's group. *)
Lemma insert_by_skip (x : A) (front back : list A) :
  Forall (fun y => (group (auto_undo y) <= group (auto_undo x))%nat) front ->
  insert_by py_lt (keyed_child x) (map keyed_child (front ++ back))
  = (r ← insert_by py_lt (keyed_child x) (map keyed_child back);
     Ok (app (map keyed_child front) r)).
Proof.
  induction front as [|y front IH]; intros Hall; simpl.
  - by destruct (insert_by py_lt (keyed_child x) (map keyed_child back)).
  - apply Forall_cons in Hall as [Hy Hall].
    rewrite auto_undo_key_lt, bind_Ok_l.
    replace (Nat.ltb (group (auto_undo x)) (group (auto_undo y))) with false
      by (symmetry; apply Nat.ltb_ge; lia).
    rewrite (IH Hall).
    by destruct (insert_by py_lt (keyed_child x) (map keyed_child back)).
Qed.

(** The scan stops in front of a list of children of later groups. *)
Lemma insert_by_stop (x : A) (back : list A) :
  Forall (fun y => (group (auto_undo x) < group (auto_undo y))%nat) back ->
  insert_by py_lt (keyed_child x) (map keyed_child back)
  = Ok (keyed_child x :: map keyed_child back).
Proof.
  destruct back as [|y back]; intros Hall; simpl; [done|].
  apply Forall_cons in Hall as [Hy _].
  rewrite auto_undo_key_lt, bind_Ok_l.
  by replace (Nat.ltb (group (auto_undo x)) (group (auto_undo y))) with true
    by (symmetry; apply Nat.ltb_lt; lia).
Qed.

Lemma filter_group_Forall (g : nat) (l : list A) :
  Forall (fun y => group (auto_undo y) = g) (List.filter (in_group g) l).
Proof.
  apply Forall_forall. intros y Hy.
  apply list_elem_of_In, filter_In in Hy as [_ Hy].
  by apply Nat.eqb_eq.
Qed.

Lemma filter_snoc (f : A -> bool) (l : list A) (x : A) :
  List.filter f (app l [x]) = app (List.filter f l) (if f x then [x] else []).
Proof. by rewrite List.filter_app. Qed.

Lemma insert_by_grouped (x : A) (l : list A) :
  insert_by py_lt (keyed_child x) (map keyed_child (grouped l))
  = Ok (map keyed_child (grouped (app l [x]))).
Proof.
  unfold grouped. rewrite !filter_snoc.
  assert (Hg : forall g, in_group g x = Nat.eqb (group (auto_undo x)) g) by done.
  rewrite !Hg. clear Hg.
  pose proof (filter_group_Forall 0 l) as H0.
  pose proof (filter_group_Forall 1 l) as H1.
  pose proof (filter_group_Forall 2 l) as H2.
  set (F0 := List.filter (in_group 0) l) in *.
  set (F1 := List.filter (in_group 1) l) in *.
  set (F2 := List.filter (in_group 2) l) in *.
  destruct (auto_undo x) as [[|]|] eqn:Hx; cbn [group Nat.eqb];
    rewrite ?app_nil_r.
  - (* undone: behind everything *)
    transitivity (insert_by py_lt (keyed_child x)
                    (map keyed_child (app (app F0 (app F1 F2)) []))).
    { by rewrite app_nil_r. }
    rewrite insert_by_skip.
    + simpl. f_equal. rewrite !map_app. simpl. by rewrite <- !app_assoc.
    + rewrite Hx. rewrite !Forall_app. repeat split;
        eapply Forall_impl; eauto; simpl; intros; lia.
  - (* kept: behind the kept children *)
    rewrite insert_by_skip.
    + rewrite insert_by_stop.
      * simpl. f_equal. rewrite !map_app. simpl. by rewrite <- !app_assoc.
      * rewrite Hx. rewrite Forall_app. split;
          eapply Forall_impl; eauto; simpl; intros; lia.
    + rewrite Hx. eapply Forall_impl; eauto; simpl; intros; lia.
  - (* not analysed: behind the kept and the other not analysed children *)
    rewrite (app_assoc F0 F1 F2).
    rewrite insert_by_skip.
    + rewrite insert_by_stop.
      * simpl. f_equal. rewrite !map_app. simpl. by rewrite <- !app_assoc.
      * rewrite Hx. eapply Forall_impl; eauto; simpl; intros; lia.
    + rewrite Hx. rewrite Forall_app. split;
        eapply Forall_impl; eauto; simpl; intros; lia.
Qed.

Lemma sort_children_grouped (l done : list A) :
  foldM (fun acc x => insert_by py_lt x acc) (map keyed_child l)
        (map keyed_child (grouped done))
  = Ok (map keyed_child (grouped (app done l))).
Proof.
  revert done. induction l as [|x l IH]; intros done; simpl.
  - by rewrite app_nil_r.
  - rewrite insert_by_grouped, bind_Ok_l, IH. by rewrite <- app_assoc.
Qed.

(** X1: [order_children] never raises and returns the kept children, then
    the children that are not analysed, then the undone ones, each group in
    its original order. *)
Theorem order_children_groups (children : list A) :
  order_children auto_undo children
  = Ok (app (List.filter (fun c => is_kept (auto_undo c)) children)
         (app (List.filter (fun c => is_unknown (auto_undo c)) children)
              (List.filter (fun c => is_undone (auto_undo c)) children))).
Proof.
  unfold order_children, py_sorted.
  rewrite (mapM_Ok_map keyed_child), bind_Ok_l.
  unfold sort_keyed.
  pose proof (sort_children_grouped children []) as Hsort.
  change (map keyed_child (grouped [])) with (@nil (value * A)) in Hsort.
  rewrite Hsort, bind_Ok_l. simpl.
  rewrite map_map, map_id. unfold grouped. f_equal.
  f_equal; [|f_equal]; apply filter_ext; intros c;
    unfold in_group; by destruct (auto_undo c) as [[|]|].
Qed.

End OrderChildren.

(** ** [update_move_analysis]: visits, orders and repeated delivery *)

Lemma moves_set_same (mvs : moves_t) (k : string) (d : dict) :
  moves_get mvs k = Some d -> moves_set mvs k d = mvs.
Proof.
  induction mvs as [|[k' d'] mvs IH]; simpl; [discriminate|].
  destruct (String.eqb k' k); intros H.
  - by injection H as ->.
  - by rewrite IH.
Qed.

(** X2: updating an entry that exists, with integer visits and orders.  The
    stored visit count becomes the larger of the stored and the delivered
    one and the stored order is never above the delivered order.  A result
    with no more visits than the stored entry changes nothing but the order,
    which becomes the minimum of the two; a result with more visits puts
    every field it carries into the entry. *)
Theorem update_existing_entry (mvs : moves_t) (ma cur : dict) (k : string)
    (oc om vc vm : Z) :
  moves_get mvs k = Some cur ->
  cur !! "order" = Some (VInt oc) ->
  get_default ma "order" (VInt 999) = VInt om ->
  cur !! "visits" = Some (VInt vc) ->
  ma !! "visits" = Some (VInt vm) ->
  exists e o,
    update_move_analysis mvs ma k = Ok (moves_set mvs k e) /\
    e !! "visits" = Some (VInt (Z.max vc vm)) /\
    e !! "order" = Some (VInt o) /\ o <= om /\
    (vm <= vc -> e = <[ "order" := VInt (Z.min oc om) ]> cur) /\
    (vc < vm -> forall f v, ma !! f = Some v -> e !! f = Some v).
Proof.
  intros Hget Hoc Hom Hvc Hvm.
  rewrite (update_move_analysis_existing mvs ma cur k oc om vc vm) by done.
  destruct (Z.ltb_spec vc vm) as [Hlt | Hge].
  - exists (ma ∪ <[ "order" := VInt (Z.min oc om) ]> cur).
    exists (match ma !! "order" with Some _ => om | None => Z.min oc om end).
    split; [done|]. split; [|split; [|split; [|split]]].
    + rewrite Z.max_r by lia. by apply lookup_union_Some_l.
    + rewrite lookup_union. unfold get_default in Hom.
      destruct (ma !! "order") as [o|]; cbn in Hom.
      * subst o. by rewrite lookup_insert_eq.
      * by rewrite lookup_insert_eq.
    + destruct (ma !! "order"); lia.
    + lia.
    + intros _ f v Hf. by apply lookup_union_Some_l.
  - exists (<[ "order" := VInt (Z.min oc om) ]> cur), (Z.min oc om).
    split; [done|]. split; [|split; [|split; [|split]]].
    + rewrite Z.max_l by lia. by rewrite lookup_insert_ne.
    + apply lookup_insert_eq.
    + lia.
    + done.
    + lia.
Qed.

Lemma update_existing_entry_witness :
  exists e o,
    update_move_analysis (analysis_moves stored_node) high_visits "D4"
      = Ok (moves_set (analysis_moves stored_node) "D4" e) /\
    e !! "visits" = Some (VInt (Z.max 100 20)) /\
    e !! "order" = Some (VInt o) /\ o <= 3 /\
    (20 <= 100 -> e = <[ "order" := VInt (Z.min 0 3) ]>
                        {[ "move" := VStr "D4"; "order" := VInt 0;
                           "visits" := VInt 100; "scoreLead" := VFloat 0.5;
                           "pv" := VList ["D4"; "Q4"] ]}) /\
    (100 < 20 -> forall f v, high_visits !! f = Some v -> e !! f = Some v).
Proof.
  exact (update_existing_entry (analysis_moves stored_node) high_visits _ "D4"
           0 3 100 20 eq_refl eq_refl eq_refl eq_refl eq_refl).
Defined.

(** After an update with integer visits and orders the entry of the move
    id has at least the delivered visits and at most the delivered order. *)
Lemma update_move_analysis_post (mvs : moves_t) (ma : dict) (k : string)
    (vm om : Z) :
  ma !! "visits" = Some (VInt vm) ->
  get_default ma "order" (VInt 999) = VInt om ->
  (forall cur, moves_get mvs k = Some cur ->
     exists oc vc, cur !! "order" = Some (VInt oc) /\
                   cur !! "visits" = Some (VInt vc)) ->
  exists e o v,
    update_move_analysis mvs ma k = Ok (moves_set mvs k e) /\
    e !! "order" = Some (VInt o) /\ o <= om /\
    e !! "visits" = Some (VInt v) /\ vm <= v.
Proof.
  intros Hvm Hom Hcur.
  destruct (moves_get mvs k) as [cur|] eqn:Hget.
  - destruct (Hcur cur eq_refl) as (oc & vc & Hoc & Hvc).
    rewrite (update_move_analysis_existing mvs ma cur k oc om vc vm) by done.
    destruct (Z.ltb_spec vc vm) as [Hlt | Hge].
    + exists (ma ∪ <[ "order" := VInt (Z.min oc om) ]> cur),
        (match ma !! "order" with Some _ => om | None => Z.min oc om end), vm.
      split; [done|]. repeat split.
      * rewrite lookup_union. unfold get_default in Hom.
        destruct (ma !! "order") as [o|]; cbn in Hom.
        -- subst o. by rewrite lookup_insert_eq.
        -- by rewrite lookup_insert_eq.
      * destruct (ma !! "order"); lia.
      * by apply lookup_union_Some_l.
      * lia.
    + exists (<[ "order" := VInt (Z.min oc om) ]> cur), (Z.min oc om), vc.
      split; [done|]. repeat split.
      * apply lookup_insert_eq.
      * lia.
      * by rewrite lookup_insert_ne.
      * lia.
  - exists (with_defaults ma k), om, vm.
    rewrite update_move_analysis_new by done.
    repeat split; try done; try lia.
    + by rewrite with_defaults_order, Hom.
    + by apply with_defaults_field.
Qed.

(** X3: delivering the same result a second time changes nothing. *)
Theorem update_move_analysis_idempotent (mvs mvs1 : moves_t) (ma : dict)
    (k : string) (vm om : Z) :
  ma !! "visits" = Some (VInt vm) ->
  get_default ma "order" (VInt 999) = VInt om ->
  (forall cur, moves_get mvs k = Some cur ->
     exists oc vc, cur !! "order" = Some (VInt oc) /\
                   cur !! "visits" = Some (VInt vc)) ->
  update_move_analysis mvs ma k = Ok mvs1 ->
  update_move_analysis mvs1 ma k = Ok mvs1.
Proof.
  intros Hvm Hom Hcur Hupd.
  destruct (update_move_analysis_post mvs ma k vm om Hvm Hom Hcur)
    as (e & o & v & Hupd' & Ho & Hole & Hv & Hvle).
  rewrite Hupd in Hupd'. injection Hupd' as ->.
  rewrite (update_move_analysis_existing _ ma e k o om v vm);
    [| apply moves_get_set_eq | done..].
  replace (v <? vm) with false by (symmetry; apply Z.ltb_ge; lia).
  rewrite Z.min_l by lia. rewrite (insert_id e "order" (VInt o)) by done.
  f_equal. apply moves_set_same, moves_get_set_eq.
Qed.

Lemma update_move_analysis_idempotent_witness :
  update_move_analysis
    (get_ok (update_move_analysis (analysis_moves stored_node) high_visits "D4") [])
    high_visits "D4"
  = Ok (get_ok (update_move_analysis (analysis_moves stored_node) high_visits "D4") []).
Proof.
  apply (update_move_analysis_idempotent (analysis_moves stored_node) _
           high_visits "D4" 20 3); try reflexivity.
  intros cur Hcur. injection Hcur as <-. by exists 0, 100.
Defined.

(** What a merge with a [refine_move] does. *)
Lemma set_analysis_refine_inv (self self' : GameNode) (aj aj' : AnalysisJson)
    (rm : Move) (alt : bool) :
  set_analysis self aj (Some rm) alt = Ok (self', aj') ->
  exists pvtail,
    first_pv (moveInfos aj) = Ok pvtail /\
    update_move_analysis (analysis_moves self)
      (rootInfo aj ∪ {[ "pv" := VList (gtp rm :: pvtail) ]}) (gtp rm)
      = Ok (analysis_moves self') /\
    analysis_root self' = analysis_root self /\
    parent self' = parent self /\
    aj' = aj.
Proof.
  unfold set_analysis. intros H.
  inv_bind H. rename a into pvtail. inv_bind H. injection H as <- <-.
  by exists pvtail.
Qed.

(** ** The entries of a node through [set_analysis] *)

Lemma moves_get_None_ids (mvs : moves_t) (k : string) :
  moves_get mvs k = None <-> ~ In k (move_ids mvs).
Proof.
  induction mvs as [|[k' d] mvs IH]; simpl; [tauto|].
  destruct (String.eqb_spec k' k) as [-> | Hne].
  - split; [discriminate | intros H; exfalso; apply H; by left].
  - rewrite IH. split; [intros H [Heq | Hin]; [done | by apply H] | tauto].
Qed.

Lemma move_ids_set (mvs : moves_t) (k : string) (d : dict) :
  move_ids (moves_set mvs k d)
  = match moves_get mvs k with
    | Some _ => move_ids mvs
    | None => app (move_ids mvs) [k]
    end.
Proof.
  induction mvs as [|[k' d'] mvs IH]; simpl; [done|].
  destruct (String.eqb k' k); simpl; [done|].
  rewrite IH. by destruct (moves_get mvs k).
Qed.

Lemma update_move_analysis_ids (mvs mvs' : moves_t) (ma : dict) (k : string) :
  update_move_analysis mvs ma k = Ok mvs' ->
  move_ids mvs'
  = match moves_get mvs k with
    | Some _ => move_ids mvs
    | None => app (move_ids mvs) [k]
    end.
Proof.
  unfold update_move_analysis. intros H.
  destruct (moves_get mvs k) as [cur|] eqn:Hget.
  - repeat inv_bind H. injection H as <-. by rewrite move_ids_set, Hget.
  - injection H as <-. by rewrite move_ids_set, Hget.
Qed.

(** One update keeps the stored move ids in place, adds at most its own at
    the end, and keeps them free of duplicates. *)
Lemma update_move_analysis_extends (mvs mvs' : moves_t) (ma : dict) (k : string) :
  update_move_analysis mvs ma k = Ok mvs' ->
  NoDup (move_ids mvs) ->
  NoDup (move_ids mvs') /\ exists new, move_ids mvs' = app (move_ids mvs) new.
Proof.
  intros H Hnd. rewrite (update_move_analysis_ids _ _ _ _ H).
  destruct (moves_get mvs k) eqn:Hget.
  - split; [done|]. exists []. by rewrite app_nil_r.
  - split; [|by exists [k]].
    apply NoDup_app. repeat split.
    + done.
    + intros x Hx Hk. apply list_elem_of_In in Hx.
      apply list_elem_of_In in Hk as [<- | []].
      by apply moves_get_None_ids in Hget.
    + apply NoDup_singleton.
Qed.

Lemma merge_infos_extends (infos : list dict) (mvs mvs' : moves_t) :
  merge_infos mvs infos = Ok mvs' ->
  NoDup (move_ids mvs) ->
  NoDup (move_ids mvs') /\ exists new, move_ids mvs' = app (move_ids mvs) new.
Proof.
  unfold merge_infos. revert mvs.
  induction infos as [|ma infos IH]; intros mvs H Hnd; simpl in H.
  - injection H as <-. split; [done|]. exists []. by rewrite app_nil_r.
  - inv_bind H. rename a into mvs1. inv_bind Ha. inv_bind Ha.
    destruct (update_move_analysis_extends _ _ _ _ Ha Hnd) as (Hnd1 & new1 & E1).
    destruct (IH _ H Hnd1) as (Hnd' & new2 & E2).
    split; [done|]. exists (app new1 new2). by rewrite E2, E1, app_assoc.
Qed.

Lemma move_ids_reset_orders (mvs : moves_t) :
  move_ids (reset_orders mvs) = move_ids mvs.
Proof. unfold move_ids, reset_orders. rewrite map_map. by apply map_ext. Qed.

(** X4: whatever the mode, a merge never removes or moves an entry of the
    node and never stores two entries under one move id: the move ids
    stored before stay where they are, new ones follow them, and the list
    stays free of duplicates. *)
Theorem set_analysis_move_ids (self self' : GameNode) (aj aj' : AnalysisJson)
    (refine_move : option Move) (alt : bool) :
  set_analysis self aj refine_move alt = Ok (self', aj') ->
  NoDup (move_ids (analysis_moves self)) ->
  NoDup (move_ids (analysis_moves self')) /\
  exists new,
    move_ids (analysis_moves self') = app (move_ids (analysis_moves self)) new.
Proof.
  intros H Hnd. destruct refine_move as [rm|].
  - apply set_analysis_refine_inv in H.
    destruct H as (pvtail & _ & Hupd & _).
    by apply (update_move_analysis_extends _ _ _ _ Hupd).
  - apply set_analysis_inv in H.
    destruct H as (infos & _ & Hmerge & _).
    apply merge_infos_extends in Hmerge.
    + destruct alt; cbn in Hmerge; [done|].
      by rewrite move_ids_reset_orders in Hmerge.
    + destruct alt; cbn; [done|]. by rewrite move_ids_reset_orders.
Qed.

(** ** Entries are stored under the move id they name *)

Lemma update_move_analysis_keyed (mvs mvs' : moves_t) (ma : dict) (k : string) :
  keyed mvs ->
  default (VStr k) (ma !! "move") = VStr k ->
  update_move_analysis mvs ma k = Ok mvs' ->
  keyed mvs'.
Proof.
  intros Hkeyed Hmove H k' e He.
  destruct (String.eqb_spec k k') as [<- | Hne];
    [|rewrite (update_move_analysis_other _ _ _ _ _ H Hne) in He; by apply Hkeyed].
  assert (Hun : forall base : dict,
             base !! "move" = Some (VStr k) -> (ma ∪ base) !! "move" = Some (VStr k)).
  { intros base Hbase. rewrite lookup_union.
    destruct (ma !! "move") as [v|]; cbn in Hmove; [subst v|];
      rewrite Hbase; done. }
  unfold update_move_analysis in H.
  destruct (moves_get mvs k) as [cur|] eqn:Hget.
  - inv_bind H. inv_bind H. cbv zeta in H. inv_bind H. inv_bind H. inv_bind H.
    injection H as <-. rewrite moves_get_set_eq in He. injection He as <-.
    assert (Hcur1 : (<[ "order" := a0 ]> cur : dict) !! "move" = Some (VStr k)).
    { rewrite lookup_insert_ne by done. by apply Hkeyed. }
    destruct a3; [by apply Hun | done].
  - injection H as <-. rewrite moves_get_set_eq in He. injection He as <-.
    unfold with_defaults. apply Hun. by simplify_map_eq.
Qed.

Lemma merge_infos_keyed (infos : list dict) (mvs mvs' : moves_t) :
  keyed mvs -> merge_infos mvs infos = Ok mvs' -> keyed mvs'.
Proof.
  unfold merge_infos. revert mvs.
  induction infos as [|ma infos IH]; intros mvs Hkeyed H; simpl in H.
  - by injection H as <-.
  - inv_bind H. inv_bind Ha. inv_bind Ha.
    apply getitem_Ok in Ha0. destruct a0; try discriminate.
    injection Ha1 as ->.
    apply (IH a); [|done].
    apply (update_move_analysis_keyed mvs a ma a1); [done | by rewrite Ha0 | done].
Qed.

Lemma keyed_nil : keyed [].
Proof. intros k e He. discriminate. Qed.

Lemma keyed_cons (k0 : string) (d : dict) (mvs : moves_t) :
  d !! "move" = Some (VStr k0) -> keyed mvs -> keyed ((k0, d) :: mvs).
Proof.
  intros Hd Hk k e. simpl.
  destruct (String.eqb_spec k0 k) as [<- | _]; [|apply Hk].
  intros H. by injection H as <-.
Qed.

Lemma reset_orders_keyed (mvs : moves_t) : keyed mvs -> keyed (reset_orders mvs).
Proof.
  intros Hkeyed k e He. rewrite moves_get_reset_orders in He.
  destruct (moves_get mvs k) as [e0|] eqn:E; [|discriminate].
  injection He as <-. rewrite lookup_insert_ne by done. by apply Hkeyed.
Qed.

(** X5: when the root statistics of the reply carry no [move] field, a
    merge in any mode keeps every entry of the node and of its parent
    stored under the move id that the entry's [move] field names. *)
Theorem set_analysis_keyed (self self' : GameNode) (aj aj' : AnalysisJson)
    (refine_move : option Move) (alt : bool) :
  rootInfo aj !! "move" = None ->
  keyed (analysis_moves self) ->
  (forall p, parent self = Some p -> keyed (analysis_moves p)) ->
  set_analysis self aj refine_move alt = Ok (self', aj') ->
  keyed (analysis_moves self') /\
  (forall p', parent self' = Some p' -> keyed (analysis_moves p')).
Proof.
  intros Hroot Hself Hpar H. destruct refine_move as [rm|].
  - apply set_analysis_refine_inv in H.
    destruct H as (pvtail & _ & Hupd & _ & Hp & _).
    split.
    + apply (update_move_analysis_keyed _ _ _ _ Hself) in Hupd; [done|].
      rewrite lookup_union, Hroot. by simplify_map_eq.
    + intros p' Hp'. apply Hpar. congruence.
  - apply set_analysis_inv in H.
    destruct H as (infos & _ & Hmerge & _ & _ & _ & _ & _ & Hback).
    split.
    + apply (merge_infos_keyed infos _ _) in Hmerge; [done|].
      destruct alt; cbn; [done | by apply reset_orders_keyed].
    + intros p' Hp'.
      destruct (parent self) as [p|] eqn:Ep, (move self) as [m|];
        try (destruct Hback as [_ Hsame]; rewrite Hp' in Hsame;
             try discriminate; injection Hsame as ->; by apply Hpar).
      destruct Hback as (pvtail & pmvs & _ & Hroot' & Hupd & Hp'').
      rewrite Hp' in Hp''. injection Hp'' as ->. cbn.
      apply (update_move_analysis_keyed _ _ _ _ (Hpar p eq_refl)) in Hupd; [done|].
      by rewrite Hroot', lookup_insert_ne, Hroot.
Qed.

Lemma update_move_analysis_keeps (mvs mvs' : moves_t) (ma : dict) (k k' : string) :
  update_move_analysis mvs ma k = Ok mvs' ->
  is_Some (moves_get mvs k') -> is_Some (moves_get mvs' k').
Proof.
  intros H Hsome. destruct (String.eqb_spec k k') as [<- | Hne].
  - destruct (update_move_analysis_stored _ _ _ _ H) as [e He]. by exists e.
  - by rewrite (update_move_analysis_other _ _ _ _ _ H Hne).
Qed.

Lemma merge_infos_keeps (infos : list dict) (mvs mvs' : moves_t) (k : string) :
  merge_infos mvs infos = Ok mvs' ->
  is_Some (moves_get mvs k) -> is_Some (moves_get mvs' k).
Proof.
  unfold merge_infos. revert mvs.
  induction infos as [|ma infos IH]; intros mvs H Hsome; simpl in H.
  - by injection H as <-.
  - inv_bind H. inv_bind Ha. inv_bind Ha.
    apply (IH _ H). by apply (update_move_analysis_keeps _ _ _ _ _ Ha).
Qed.

Lemma merge_infos_stored (infos : list dict) (mvs mvs' : moves_t) (m : dict)
    (k : string) :
  merge_infos mvs infos = Ok mvs' ->
  In m infos -> m !! "move" = Some (VStr k) ->
  is_Some (moves_get mvs' k).
Proof.
  revert mvs.
  induction infos as [|ma infos IH]; intros mvs H Hin Hmove; [destruct Hin|].
  unfold merge_infos in H. simpl in H.
  inv_bind H. inv_bind Ha. inv_bind Ha.
  destruct Hin as [-> | Hin].
  - apply getitem_Ok in Ha0. rewrite Hmove in Ha0. injection Ha0 as <-.
    injection Ha1 as <-.
    apply (merge_infos_keeps infos a mvs' k H).
    destruct (update_move_analysis_stored _ _ _ _ Ha) as [e He]. by exists e.
  - by apply (IH a).
Qed.

(** X6: after a whole-position merge, primary or alternatives, the node
    holds an entry for every move id named by a move info of the reply. *)
Theorem set_analysis_stores_reply_moves (self self' : GameNode)
    (aj aj' : AnalysisJson) (alt : bool) (m : dict) (k : string) :
  set_analysis self aj None alt = Ok (self', aj') ->
  In m (moveInfos aj) ->
  m !! "move" = Some (VStr k) ->
  exists e, moves_get (analysis_moves self') k = Some e.
Proof.
  intros H Hin Hmove. apply set_analysis_inv in H.
  destruct H as (infos & Hinfos & Hmerge & _).
  assert (Hin' : exists m', In m' infos /\ m' !! "move" = Some (VStr k)).
  { destruct alt.
    - destruct (mapM_In _ _ _ _ Hinfos Hin) as (m' & Hm' & Hin').
      exists m'. split; [done|].
      unfold add_offset in Hm'. repeat inv_bind Hm'. injection Hm' as <-.
      by rewrite lookup_insert_ne.
    - injection Hinfos as <-. by exists m. }
  destruct Hin' as (m' & Hin' & Hmove').
  destruct (merge_infos_stored _ _ _ _ _ Hmerge Hin' Hmove') as [e He].
  by exists e.
Qed.

(** ** Readiness *)

(** X7: a primary merge makes the node analysis-ready, and its [score] and
    [winrate] are then the [scoreLead] and [winrate] of the delivered root
    statistics ([None] where the reply has none). *)
Theorem primary_merge_ready (self self' : GameNode) (aj aj' : AnalysisJson) :
  set_analysis self aj None false = Ok (self', aj') ->
  analysis_ready self' = true /\
  score self' = get_default (rootInfo aj) "scoreLead" VNone /\
  winrate self' = get_default (rootInfo aj) "winrate" VNone.
Proof.
  intros H. apply set_analysis_inv in H.
  destruct H as (infos & _ & _ & _ & _ & _ & _ & Hroot & Hback).
  cbn in Hroot.
  assert (Hsame : forall f, f <> "pv" -> rootInfo aj' !! f = rootInfo aj !! f).
  { intros f Hf. destruct (parent self), (move self);
      try (destruct Hback as [-> _]; done).
    destruct Hback as (pvtail & pmvs & _ & -> & _). by rewrite lookup_insert_ne. }
  unfold analysis_ready, score, winrate, get_default. rewrite Hroot.
  by rewrite !Hsame.
Qed.

(** X8: a refine merge and an alternatives merge leave [analysis["root"]]
    alone, so they do not make a node ready: a node that has not had a
    primary merge still has no score, no point loss and no candidates
    afterwards, whatever entries the merge stored. *)
Theorem secondary_merge_not_ready (self self' : GameNode) (aj aj' : AnalysisJson)
    (refine_move : option Move) (alt : bool) :
  set_analysis self aj refine_move alt = Ok (self', aj') ->
  (refine_move <> None \/ alt = true) ->
  analysis_ready self = false ->
  analysis_ready self' = false /\
  score self' = VNone /\
  points_lost self' = Ok None /\
  candidate_moves self' = Ok [].
Proof.
  intros H Hmode Hready.
  assert (Hroot : analysis_root self' = analysis_root self).
  { destruct refine_move as [rm|].
    - apply set_analysis_refine_inv in H.
      by destruct H as (? & _ & _ & Hroot & _).
    - destruct Hmode as [Hne | ->]; [done|].
      apply set_analysis_inv in H.
      by destruct H as (? & _ & _ & _ & _ & _ & _ & Hroot & _). }
  unfold analysis_ready in Hready.
  destruct (analysis_root self) eqn:E; [discriminate|].
  unfold analysis_ready, score, points_lost, candidate_moves, analysis_ready.
  rewrite Hroot. repeat split.
  by destruct (move self'), (parent self').
Qed.

(** ** [candidate_moves]: the candidates are the entries, sorted by order *)

Lemma insert_by_Permutation {K A : Type} (lt : K -> K -> result bool)
    (x : K * A) (l l' : list (K * A)) :
  insert_by lt x l = Ok l' -> l' ≡ₚ x :: l.
Proof.
  revert l'. induction l as [|y l IH]; intros l' H; simpl in H.
  - by injection H as <-.
  - inv_bind H. destruct a.
    + by injection H as <-.
    + inv_bind H. injection H as <-.
      rewrite (IH _ Ha0). apply perm_swap.
Qed.

Lemma sort_keyed_Permutation {K A : Type} (lt : K -> K -> result bool)
    (l l' : list (K * A)) :
  sort_keyed lt l = Ok l' -> l' ≡ₚ l.
Proof.
  unfold sort_keyed.
  assert (Hgen : forall acc, foldM (fun acc x => insert_by lt x acc) l acc = Ok l' ->
                             l' ≡ₚ app l acc).
  { induction l as [|x l IH]; intros acc H; simpl in H.
    - by injection H as <-.
    - inv_bind H. rewrite (IH _ H), (insert_by_Permutation _ _ _ _ Ha).
      simpl. by rewrite Permutation_middle. }
  intros H. rewrite (Hgen [] H). by rewrite app_nil_r.
Qed.

Lemma mapM_Forall2 {A B : Type} (f : A -> result B) (l : list A) (l' : list B) :
  mapM f l = Ok l' -> Forall2 (fun a b => f a = Ok b) l l'.
Proof.
  revert l'. induction l as [|x l IH]; intros l' H; simpl in H.
  - injection H as <-. constructor.
  - inv_bind H. inv_bind H. injection H as <-. constructor; auto.
Qed.

Lemma py_sorted_Permutation {K A : Type} (lt : K -> K -> result bool)
    (key : A -> result K) (l l' : list A) :
  py_sorted lt key l = Ok l' -> l' ≡ₚ l.
Proof.
  unfold py_sorted. intros H.
  inv_bind H. inv_bind H. injection H as <-.
  rewrite (sort_keyed_Permutation _ _ _ Ha0).
  apply mapM_Forall2 in Ha. clear Ha0.
  induction Ha as [|x y l l' Hxy _ IH]; simpl; [done|].
  inv_bind Hxy. injection Hxy as <-. simpl. by rewrite IH.
Qed.

(** X9: with move entries stored, the candidates of a ready node are the
    entries themselves, one candidate for each entry and no other, each
    with the field [pointsLost] added as sign(next player) * (root score -
    entry score); an entry that has a [pointsLost] field of its own keeps
    it. *)
Theorem candidate_moves_entries (n : GameNode) (root : dict) (l : list dict) :
  analysis_root n = Some root ->
  analysis_moves n <> [] ->
  candidate_moves n = Ok l ->
  exists root_score ds,
    root !! "scoreLead" = Some root_score /\
    Forall2 (fun e d =>
               exists sg s diff pl,
                 player_sign (next_player n) = Ok sg /\
                 e !! "scoreLead" = Some s /\
                 py_sub root_score s = Ok diff /\
                 py_mul (VInt sg) diff = Ok pl /\
                 d = e ∪ {[ "pointsLost" := pl ]})
            (map snd (analysis_moves n)) ds /\
    l ≡ₚ ds /\
    length l = length (analysis_moves n).
Proof.
  intros Hroot Hne H. unfold candidate_moves in H. rewrite Hroot in H.
  destruct (analysis_moves n) as [|kd mvs] eqn:Hmvs; [done|].
  rewrite <- Hmvs in *. clear Hmvs kd mvs Hne.
  inv_bind H. rename a into root_score. inv_bind H. rename a into ds.
  apply getitem_Ok in Ha.
  exists root_score, ds. split; [done|].
  pose proof (py_sorted_Permutation _ _ _ _ H) as Hperm.
  split; [|split; [done|]].
  - apply mapM_Forall2 in Ha0.
    eapply Forall2_impl; [exact Ha0|]. cbn. intros e d Hd.
    unfold with_points_lost in Hd.
    inv_bind Hd. inv_bind Hd. inv_bind Hd. inv_bind Hd. injection Hd as <-.
    apply getitem_Ok in Ha2. by exists a, a0, a1, a2.
  - rewrite Hperm, (mapM_length _ _ _ Ha0). apply length_map.
Qed.

(** *** Sorted by order *)

Section InsertSorted.
Context {K A : Type} (lt : K -> K -> result bool).
Context (rank : K -> Z) (good : K -> Prop).
Hypothesis lt_rank : forall a b c,
  good a -> good b -> lt a b = Ok c ->
  if c : bool then rank a <= rank b else rank b <= rank a.

Let by_rank (x y : K * A) : Prop := rank (fst x) <= rank (fst y).

Lemma insert_by_sorted (x : K * A) (l l' : list (K * A)) :
  good (fst x) -> Forall (fun y => good (fst y)) l ->
  StronglySorted by_rank l ->
  insert_by lt x l = Ok l' ->
  StronglySorted by_rank l'.
Proof.
  intros Hx. revert l'.
  induction l as [|y l IH]; intros l' Hgood Hsorted H; simpl in H.
  - injection H as <-. repeat constructor.
  - apply Forall_cons in Hgood as [Hy Hgood].
    apply StronglySorted_inv in Hsorted as [Hsorted Hall].
    inv_bind H. pose proof (lt_rank _ _ _ Hx Hy Ha) as Hc.
    destruct a.
    + injection H as <-. constructor; [by constructor|].
      constructor; [done|].
      eapply Forall_impl; [exact Hall|]. unfold by_rank. intros z Hz. lia.
    + inv_bind H. injection H as <-.
      constructor; [by apply IH|].
      rewrite (insert_by_Permutation _ _ _ _ Ha0). by constructor.
Qed.

Lemma sort_keyed_sorted (l l' : list (K * A)) :
  Forall (fun y => good (fst y)) l ->
  sort_keyed lt l = Ok l' ->
  StronglySorted by_rank l'.
Proof.
  unfold sort_keyed.
  assert (Hgen : forall acc,
             Forall (fun y => good (fst y)) l ->
             Forall (fun y => good (fst y)) acc ->
             StronglySorted by_rank acc ->
             foldM (fun acc x => insert_by lt x acc) l acc = Ok l' ->
             StronglySorted by_rank l').
  { induction l as [|x l IH]; intros acc Hl Hacc Hsorted H; simpl in H.
    - by injection H as <-.
    - apply Forall_cons in Hl as [Hx Hl]. inv_bind H.
      apply (IH a); [done | | by apply (insert_by_sorted x acc) | done].
      rewrite (insert_by_Permutation _ _ _ _ Ha). by constructor. }
  intros Hl H. apply (Hgen [] Hl); [constructor | constructor | done].
Qed.
End InsertSorted.

Lemma tuple_lt_rank (a b : value * value) (c : bool) :
  int_order a -> int_order b -> tuple_lt a b = Ok c ->
  if c then order_rank a <= order_rank b else order_rank b <= order_rank a.
Proof.
  destruct a as [oa pa], b as [ob pb]. intros [za Ha] [zb Hb]. cbn in Ha, Hb.
  subst oa ob. unfold tuple_lt, order_rank. cbn.
  destruct (Z.eqb_spec za zb) as [-> | Hne].
  - intros _. destruct c; lia.
  - intros H. injection H as <-. destruct (Z.ltb_spec za zb); lia.
Qed.

Lemma mapM_Forall {A B : Type} (f : A -> result B) (P : A -> Prop) (Q : B -> Prop)
    (l : list A) (l' : list B) :
  (forall a b, P a -> f a = Ok b -> Q b) ->
  Forall P l -> mapM f l = Ok l' -> Forall Q l'.
Proof.
  intros Hf Hl H. apply mapM_Forall2 in H.
  induction H as [|a b l l' Hab _ IH]; [constructor|].
  apply Forall_cons in Hl as [Ha Hl]. constructor; eauto.
Qed.

(** X10: the candidates come in ascending order of [order] (the order
    dominates the sort key) whenever the stored orders are integers; this
    covers the single candidate built from the root statistics and the
    empty list of a node that is not ready. *)
Theorem candidate_moves_sorted (n : GameNode) (l : list dict) :
  Forall (fun kd : string * dict => exists o, snd kd !! "order" = Some (VInt o))
         (analysis_moves n) ->
  candidate_moves n = Ok l ->
  exists os,
    Forall2 (fun (d : dict) o => d !! "order" = Some (VInt o)) l os /\
    StronglySorted Z.le os.
Proof.
  intros Hint H. unfold candidate_moves in H.
  destruct (analysis_root n) as [root|].
  2:{ injection H as <-. exists []. split; constructor. }
  destruct (analysis_moves n) as [|kd mvs] eqn:Hmvs.
  { inv_bind H. injection H as <-. exists [0]. split.
    - constructor; [|constructor]. apply root_candidate_fields.
    - repeat constructor. }
  rewrite <- Hmvs in *. clear Hmvs kd mvs.
  inv_bind H. rename a into root_score. inv_bind H. rename a into ds.
  unfold py_sorted in H. inv_bind H. rename a into kl.
  inv_bind H. rename a into r. injection H as <-.
  assert (Hds : Forall (fun d : dict => exists o, d !! "order" = Some (VInt o)) ds).
  { apply (mapM_Forall _ (fun e : dict => exists o, e !! "order" = Some (VInt o))
             _ _ _) with (3 := Ha0).
    - intros e d [o Ho] Hd. unfold with_points_lost in Hd.
      repeat inv_bind Hd. injection Hd as <-.
      exists o. by apply lookup_union_Some_l.
    - apply Forall_forall. intros e He.
      apply list_elem_of_In, in_map_iff in He as (kd & <- & Hkd).
      rewrite Forall_forall in Hint. apply Hint. by apply list_elem_of_In. }
  assert (Hkl : Forall (fun x : value * value * dict =>
                          exists z, fst (fst x) = VInt z /\
                                    snd x !! "order" = Some (VInt z)) kl).
  { apply (mapM_Forall _ _ _ _ _) with (2 := Hds) (3 := Ha1).
    intros d x [o Ho] Hx. apply bind_Ok in Hx as (k & Hk & Hx).
    injection Hx as <-. unfold candidate_key in Hk.
    apply bind_Ok in Hk as (o' & Ho' & Hk).
    apply bind_Ok in Hk as (pl & _ & Hk). injection Hk as <-.
    apply getitem_Ok in Ho'. exists o. split; [cbn; congruence | done]. }
  pose proof (sort_keyed_Permutation _ _ _ Ha2) as Hperm.
  assert (Hr : Forall (fun x : value * value * dict =>
                         exists z, fst (fst x) = VInt z /\
                                   snd x !! "order" = Some (VInt z)) r)
    by (by rewrite Hperm).
  assert (Hsorted : StronglySorted
                      (fun x y : value * value * dict =>
                         order_rank (fst x) <= order_rank (fst y)) r).
  { apply (sort_keyed_sorted tuple_lt order_rank int_order tuple_lt_rank kl r);
      [|done].
    eapply Forall_impl; [exact Hkl|]. intros x (z & Hz & _). by exists z. }
  exists (map (fun x : value * value * dict => order_rank (fst x)) r).
  clear Hperm Ha2. split.
  - induction Hr as [|x r (z & Hz & Ho) _ IH]; simpl; constructor.
    + unfold order_rank. by rewrite Hz.
    + apply IH. by apply StronglySorted_inv in Hsorted as [? _].
  - induction Hsorted as [|x r _ IH Hall]; simpl; constructor.
    + apply IH. by apply Forall_cons in Hr as [_ ?].
    + apply Forall_forall. intros o Ho.
      apply list_elem_of_In, in_map_iff in Ho as (y & <- & Hy).
      rewrite Forall_forall in Hall. apply Hall. by apply list_elem_of_In.
Qed.

(** ** [policy_ranking] and [move_policy_stats] *)

Lemma board_points_length (szx szy : nat) :
  length (board_points szx szy) = (szx * szy)%nat.
Proof.
  unfold board_points.
  assert (Hrow : forall (x : nat) (l : list nat),
             length (l ≫= fun y => [(x, y)]) = length l).
  { intros x l. induction l as [|y l IH]; [done|].
    rewrite bind_cons. simpl. by rewrite IH. }
  assert (Hall : forall l : list nat,
             length (l ≫= fun x => seq 0 szy ≫= fun y => [(x, y)])
             = (length l * szy)%nat).
  { induction l as [|x l IH]; [done|].
    rewrite bind_cons, length_app, IH, Hrow, length_seq. simpl. lia. }
  by rewrite Hall, length_seq.
Qed.

Lemma board_points_In (szx szy x y : nat) :
  (x < szx)%nat -> (y < szy)%nat -> In (x, y) (board_points szx szy).
Proof.
  intros Hx Hy. unfold board_points.
  apply list_elem_of_In, list_elem_of_bind. exists x. split.
  - apply list_elem_of_bind. exists y. split; [by left|].
    apply list_elem_of_In, in_seq. lia.
  - apply list_elem_of_In, in_seq. lia.
Qed.

Lemma board_points_bound (szx szy x y : nat) :
  In (x, y) (board_points szx szy) -> (x < szx)%nat /\ (y < szy)%nat.
Proof.
  unfold board_points. intros H.
  apply list_elem_of_In, list_elem_of_bind in H as (x' & H & Hx).
  apply list_elem_of_bind in H as (y' & H & Hy).
  apply list_elem_of_In in H as [H | []]. injection H as <- <-.
  apply list_elem_of_In, in_seq in Hx. apply list_elem_of_In, in_seq in Hy. lia.
Qed.

Lemma mapM_returns {A B : Type} (f : A -> result B) (l : list A) :
  (forall a, In a l -> exists b, f a = Ok b) -> exists l', mapM f l = Ok l'.
Proof.
  induction l as [|a l IH]; intros Hf; simpl; [by eexists|].
  destruct (Hf a (or_introl eq_refl)) as [b ->].
  destruct IH as [l' ->]; [intros a' Ha'; apply Hf; by right|].
  by eexists.
Qed.

Lemma insert_by_returns {K A : Type} (lt : K -> K -> result bool)
    (x : K * A) (l : list (K * A)) :
  (forall a b, exists c, lt a b = Ok c) -> exists l', insert_by lt x l = Ok l'.
Proof.
  intros Hlt. induction l as [|y l [l' IH]]; simpl; [by eexists|].
  destruct (Hlt (fst x) (fst y)) as [[|] ->]; cbn; [by eexists|].
  rewrite IH. by eexists.
Qed.

Lemma py_sorted_returns {K A : Type} (lt : K -> K -> result bool)
    (key : A -> K) (l : list A) :
  (forall a b, exists c, lt a b = Ok c) ->
  exists l', py_sorted lt (fun a => Ok (key a)) l = Ok l'.
Proof.
  intros Hlt. unfold py_sorted, sort_keyed.
  rewrite (mapM_Ok_map (fun a => (key a, a))), bind_Ok_l.
  assert (Hgen : forall (kl acc : list (K * A)),
             exists r, foldM (fun acc x => insert_by lt x acc) kl acc = Ok r).
  { induction kl as [|x kl IH]; intros acc; simpl; [by eexists|].
    destruct (insert_by_returns lt x acc Hlt) as [acc' ->]. apply IH. }
  destruct (Hgen (map (fun a => (key a, a)) l) []) as [r ->]. by eexists.
Qed.

(** The entries of a ranking that was produced: the pass move with the
    last policy value, and every board point with its grid value. *)
Lemma policy_ranking_moves (n : GameNode) (p0 : float) (ps : list float)
    (szx szy : nat) (r : list (float * Move)) :
  policy n = Some (p0 :: ps) ->
  board_size n = (szx, szy) ->
  policy_ranking n = Ok (Some r) ->
  exists moves,
    r ≡ₚ app moves [(List.last ps p0, mkMove None (next_player n))] /\
    length moves = (szx * szy)%nat /\
    forall x y, (x < szx)%nat -> (y < szy)%nat ->
      exists row p,
        var_to_grid (p0 :: ps) (szx, szy) !! y = Some row /\
        row !! x = Some p /\
        In (p, mkMove (Some (x, y)) (next_player n)) moves.
Proof.
  intros Hpol Hsz H. unfold policy_ranking in H. rewrite Hpol, Hsz in H.
  inv_bind H. rename a into moves. inv_bind H. injection H as <-.
  exists moves. split; [by apply (py_sorted_Permutation _ _ _ _ Ha0)|].
  split; [by rewrite (mapM_length _ _ _ Ha), board_points_length|].
  intros x y Hx Hy.
  destruct (mapM_In _ _ _ _ Ha (board_points_In szx szy x y Hx Hy))
    as (b & Hb & Hin).
  cbn in Hb. unfold index in Hb.
  destruct (var_to_grid (p0 :: ps) (szx, szy) !! y) as [row|] eqn:Hrow;
    [|discriminate].
  cbn in Hb. destruct (row !! x) as [p|] eqn:Hp; [|discriminate].
  injection Hb as <-. by exists row, p.
Qed.

(** X11: for a node with a non-empty policy on a [szx] by [szy] board,
    [policy_ranking] returns a ranking exactly when the grid has a value
    for every board point (otherwise an index is out of range).  The
    ranking has [szx * szy + 1] entries: one for every board point, with its
    grid value, and the pass move with the last policy value, all for the
    player to move. *)
Theorem policy_ranking_shape (n : GameNode) (p0 : float) (ps : list float)
    (szx szy : nat) :
  policy n = Some (p0 :: ps) ->
  board_size n = (szx, szy) ->
  ((forall x y, (x < szx)%nat -> (y < szy)%nat ->
      exists row p, var_to_grid (p0 :: ps) (szx, szy) !! y = Some row /\
                    row !! x = Some p)
   <-> exists r, policy_ranking n = Ok (Some r)) /\
  forall r, policy_ranking n = Ok (Some r) ->
    length r = (szx * szy + 1)%nat /\
    In (List.last ps p0, mkMove None (next_player n)) r /\
    forall x y, (x < szx)%nat -> (y < szy)%nat ->
      exists p, In (p, mkMove (Some (x, y)) (next_player n)) r.
Proof.
  intros Hpol Hsz. split; [split|].
  - intros Hgrid. unfold policy_ranking. rewrite Hpol, Hsz.
    destruct (mapM_returns
                (fun xy : nat * nat =>
                   row ← index (var_to_grid (p0 :: ps) (szx, szy)) (snd xy);
                   p ← index row (fst xy);
                   Ok (p, mkMove (Some xy) (next_player n)))
                (board_points szx szy)) as [moves Hmoves].
    { intros [x y] Hxy. apply board_points_bound in Hxy as [Hx Hy].
      destruct (Hgrid x y Hx Hy) as (row & p & Hrow & Hp).
      cbn. unfold index. rewrite Hrow. cbn. rewrite Hp. by eexists. }
    rewrite Hmoves, bind_Ok_l.
    destruct (py_sorted_returns float_lt
                (fun mp : float * Move => PrimFloat.opp (fst mp))
                (app moves [(List.last ps p0, mkMove None (next_player n))]))
      as [r Hr]; [intros a b; by eexists|].
    rewrite Hr. by eexists.
  - intros [r Hr] x y Hx Hy.
    destruct (policy_ranking_moves n p0 ps szx szy r Hpol Hsz Hr)
      as (moves & _ & _ & Hpts).
    destruct (Hpts x y Hx Hy) as (row & p & Hrow & Hp & _). by exists row, p.
  - intros r Hr.
    destruct (policy_ranking_moves n p0 ps szx szy r Hpol Hsz Hr)
      as (moves & Hperm & Hlen & Hpts).
    split; [by rewrite Hperm, length_app, Hlen|].
    split.
    + apply list_elem_of_In. rewrite Hperm. apply list_elem_of_In, in_app_iff.
      right. by left.
    + intros x y Hx Hy. destruct (Hpts x y Hx Hy) as (row & p & _ & _ & Hin).
      exists p. apply list_elem_of_In. rewrite Hperm.
      apply list_elem_of_In, in_app_iff. by left.
Qed.

Lemma find_move_bound (m : Move) (ranking : list (float * Move))
    (ix0 ix : Z) (p : float) :
  find_move m ranking ix0 = Some (ix, p) ->
  ix0 <= ix < ix0 + Z.of_nat (length ranking).
Proof.
  intros H. destruct (find_move_Some _ _ _ _ _ H) as (i & m' & -> & Hi & _).
  apply lookup_lt_Some in Hi. lia.
Qed.

(** X12: when [move_policy_stats] returns a rank, the node has a move and a
    parent whose ranking was produced and is returned; the rank is 1-based,
    within the ranking, and names the first entry whose move equals the
    node's move; the returned probability is that entry's. *)
Theorem move_policy_stats_rank (n : GameNode) (rank : Z) (prob : float)
    (ranking : list (float * Move)) :
  move_policy_stats n = Ok (Some rank, prob, ranking) ->
  exists m p m' (i : nat),
    move n = Some m /\ parent n = Some p /\
    policy_ranking p = Ok (Some ranking) /\
    rank = Z.of_nat i + 1 /\ (i < length ranking)%nat /\
    ranking !! i = Some (prob, m') /\ Move_eqb m' m = true /\
    forall (j : nat) q mj, (j < i)%nat -> ranking !! j = Some (q, mj) ->
                           Move_eqb mj m = false.
Proof.
  unfold move_policy_stats. intros H.
  destruct (move n) as [m|]; [|discriminate].
  destruct (parent n) as [p|]; [|discriminate].
  inv_bind H. destruct a as [rk|]; [|discriminate].
  destruct (find_move m rk 0) as [[ix pr]|] eqn:Hfind; [|discriminate].
  assert (ix + 1 = rank /\ pr = prob /\ rk = ranking) as (<- & <- & <-).
  { by injection H as <- <- <-. }
  destruct (find_move_Some _ _ _ _ _ Hfind) as (i & m' & -> & Hi & Hm' & Hfirst).
  exists m, p, m', i. repeat split; try done.
  by apply lookup_lt_Some in Hi.
Qed.

(** X13: when [move_policy_stats] returns no rank, the probability is 0.0
    and the ranking is the empty list, and either the node has no move, or
    it has no parent, or no entry of the parent's ranking has a move equal
    to the node's. *)
Theorem move_policy_stats_sentinel (n : GameNode) (prob : float)
    (l : list (float * Move)) :
  move_policy_stats n = Ok (None, prob, l) ->
  l = [] /\
  prob = 0%float /\
  (move n = None \/ parent n = None \/
   exists m p ranking,
     move n = Some m /\ parent n = Some p /\
     policy_ranking p = Ok (Some ranking) /\
     forall q m', In (q, m') ranking -> Move_eqb m' m = false).
Proof.
  unfold move_policy_stats. intros H.
  assert (Hsent : forall r : result (option Z * float * list (float * Move)),
             r = Ok (None, 0%float, []) -> r = Ok (None, prob, l) ->
             l = [] /\ prob = 0%float).
  { intros r -> Hr.
    assert (Hl : [] = l) by congruence.
    assert (Hp : 0%float = prob) by congruence.
    by split. }
  destruct (move n) as [m|]; [|destruct (Hsent _ eq_refl H); auto].
  destruct (parent n) as [p|]; [|destruct (Hsent _ eq_refl H); auto].
  inv_bind H. destruct a as [rk|]; [|discriminate].
  destruct (find_move m rk 0) as [[ix pr]|] eqn:Hfind; [discriminate|].
  destruct (Hsent _ eq_refl H) as [-> ->]. repeat split.
  right. right. exists m, p, rk. repeat split; try done.
  by apply (find_move_None _ _ _ Hfind).
Qed.

Lemma Move_eqb_refl (m : Move) (s : string) :
  player m = VStr s -> Move_eqb m m = true.
Proof.
  unfold Move_eqb. intros ->. cbn. rewrite String.eqb_refl.
  destruct (coords m) as [[x y]|]; [|done].
  by rewrite !Nat.eqb_refl.
Qed.

Lemma find_move_finds (m m' : Move) (q : float) (ranking : list (float * Move))
    (ix0 : Z) :
  In (q, m') ranking -> Move_eqb m' m = true ->
  exists ix p, find_move m ranking ix0 = Some (ix, p).
Proof.
  revert ix0. induction ranking as [|[q0 m0] ranking IH]; intros ix0 Hin Heq;
    [destruct Hin|]. simpl.
  destruct (Move_eqb m0 m) eqn:E; [by eexists _, _|].
  destruct Hin as [H | Hin]; [|by apply IH].
  injection H as -> ->. congruence.
Qed.

(** X14: when the parent's ranking is produced, a pass and every move on
    the board by the parent's player to move (a string tag) gets a rank:
    the not-found answer is not returned for them. *)
Theorem move_policy_stats_finds (n p : GameNode) (m : Move) (s : string)
    (p0 : float) (ps : list float) (szx szy : nat)
    (ranking : list (float * Move)) :
  move n = Some m ->
  parent n = Some p ->
  policy p = Some (p0 :: ps) ->
  board_size p = (szx, szy) ->
  policy_ranking p = Ok (Some ranking) ->
  next_player p = VStr s ->
  player m = VStr s ->
  (coords m = None \/
   exists x y, coords m = Some (x, y) /\ (x < szx)%nat /\ (y < szy)%nat) ->
  exists rank prob,
    move_policy_stats n = Ok (Some rank, prob, ranking) /\
    1 <= rank <= Z.of_nat (szx * szy + 1).
Proof.
  intros Hm Hp Hpol Hsz Hr Hnp Hpl Hcoords.
  rewrite (move_policy_stats_ranked n p m ranking Hm Hp Hr).
  destruct (policy_ranking_moves p p0 ps szx szy ranking Hpol Hsz Hr)
    as (moves & Hperm & Hlen & Hpts).
  assert (Hin : exists q, In (q, m) ranking).
  { destruct m as [c pl]. cbn in Hpl, Hcoords. subst pl. rewrite Hnp in *.
    destruct Hcoords as [-> | (x & y & -> & Hx & Hy)].
    - exists (List.last ps p0). apply list_elem_of_In. rewrite Hperm.
      apply list_elem_of_In, in_app_iff. right. by left.
    - destruct (Hpts x y Hx Hy) as (row & q & _ & _ & Hin).
      exists q. apply list_elem_of_In. rewrite Hperm.
      apply list_elem_of_In, in_app_iff. by left. }
  destruct Hin as [q Hin].
  destruct (find_move_finds m m q ranking 0 Hin (Move_eqb_refl m s Hpl))
    as (ix & prob & Hfind).
  rewrite Hfind. exists (ix + 1), prob. split; [done|].
  apply find_move_bound in Hfind.
  assert (length ranking = (szx * szy + 1)%nat)
    by (by rewrite Hperm, length_app, Hlen).
  lia.
Qed.

(** ** [parent_realized_points_lost] *)

(** X15: for a node with a move by ["B"] or ["W"], a parent and a
    grandparent, the node and the grandparent ready with float scores,
    [parent_realized_points_lost] is the sign of the mover times (own score
    - grandparent score); the parent's own analysis plays no part, ready or
    not.  Without a move, a parent or a grandparent, or when the node or
    the grandparent is not ready, the result is [None]. *)
Theorem parent_realized_points_lost_formula (n : GameNode) :
  (forall m p g rn rg sn sg,
      move n = Some m -> parent n = Some p -> parent p = Some g ->
      analysis_root n = Some rn -> analysis_root g = Some rg ->
      rn !! "scoreLead" = Some (VFloat sn) ->
      rg !! "scoreLead" = Some (VFloat sg) ->
      (player m = VStr "B" ->
       parent_realized_points_lost n = Ok (Some (VFloat (1 * (sn - sg))))) /\
      (player m = VStr "W" ->
       parent_realized_points_lost n = Ok (Some (VFloat ((-1) * (sn - sg))))))
  /\
  (move n = None \/ parent n = None \/
   (exists p, parent n = Some p /\ parent p = None) \/
   analysis_ready n = false \/
   (exists p g, parent n = Some p /\ parent p = Some g /\
                analysis_ready g = false) ->
   parent_realized_points_lost n = Ok None).
Proof.
  split.
  - intros m p g rn rg sn sg Hm Hp Hg Hrn Hrg Hsn Hsg.
    unfold parent_realized_points_lost, analysis_ready, score, get_default.
    rewrite Hm, Hp, Hg, Hrn, Hrg, Hsn, Hsg. cbn [andb default].
    split; intros ->; reflexivity.
  - unfold parent_realized_points_lost.
    intros [Hm | [Hp | [(p & Hp & Hg) | [Hr | (p & g & Hp & Hg & Hr)]]]].
    + by rewrite Hm.
    + rewrite Hp. by destruct (move n).
    + rewrite Hp, Hg. by destruct (move n).
    + rewrite Hr. destruct (move n), (parent n) as [p|]; try done.
      by destruct (parent p).
    + rewrite Hp, Hg, Hr, andb_false_r. by destruct (move n).
Qed.

(** ** Replies with missing fields, and what a merge writes into the reply *)

Lemma raises_bind {A B : Type} (r : result A) (k : A -> result B) :
  raises r -> raises (r ≫= k).
Proof. intros [e ->]. by exists e. Qed.

Lemma mapM_raises {A B : Type} (f : A -> result B) (l : list A) (a : A) :
  In a l -> raises (f a) -> raises (mapM f l).
Proof.
  induction l as [|x l IH]; intros Hin Ha; [destruct Hin|]. simpl.
  destruct Hin as [-> | Hin].
  - by apply raises_bind.
  - destruct (f x) as [b|e]; [|by exists e]. cbn.
    by apply raises_bind, IH.
Qed.

Lemma foldM_raises {A B : Type} (f : B -> A -> result B) (l : list A) (a : A) :
  In a l -> (forall b, raises (f b a)) -> forall b, raises (foldM f l b).
Proof.
  induction l as [|x l IH]; intros Hin Ha b; [destruct Hin|]. simpl.
  destruct Hin as [-> | Hin].
  - by apply raises_bind.
  - destruct (f b x) as [b'|e]; [|by exists e]. cbn. by apply IH.
Qed.

(** X16: a whole-position merge raises when a move info of the reply has no
    [move] field; in alternatives mode it also raises when a move info has
    no [order] field, since the offset is added to it in place. *)
Theorem set_analysis_missing_field (self : GameNode) (aj : AnalysisJson)
    (alt : bool) (m : dict) :
  In m (moveInfos aj) ->
  m !! "move" = None \/ (alt = true /\ m !! "order" = None) ->
  raises (set_analysis self aj None alt).
Proof.
  intros Hin Hmiss. unfold set_analysis.
  destruct alt.
  - destruct (mapM add_offset (moveInfos aj)) as [infos|e] eqn:Hinfos;
      [|by exists e].
    destruct Hmiss as [Hmove | [_ Hord]].
    + rewrite bind_Ok_l. apply raises_bind.
      destruct (mapM_In _ _ _ _ Hinfos Hin) as (m' & Hm' & Hin').
      apply (foldM_raises _ _ m' Hin'). intros acc.
      unfold add_offset in Hm'. repeat inv_bind Hm'. injection Hm' as <-.
      unfold getitem. rewrite lookup_insert_ne, Hmove by done. by exists KeyError.
    + assert (Hr : raises (mapM add_offset (moveInfos aj))).
      { apply (mapM_raises _ _ m Hin). unfold add_offset, getitem.
        rewrite Hord. by exists KeyError. }
      destruct Hr as [e He]. congruence.
  - destruct Hmiss as [Hmove | [? _]]; [|discriminate].
    rewrite bind_Ok_l. apply raises_bind.
    apply (foldM_raises _ _ m Hin). intros acc.
    unfold getitem. rewrite Hmove. by exists KeyError.
Qed.

(** X17: the [pv] of the first move info is read by a refine merge, and by
    a whole-position merge of a node with a parent and a move: when the
    first move info has no [pv] field these merges raise. *)
Theorem set_analysis_missing_pv (self : GameNode) (aj : AnalysisJson)
    (refine_move : option Move) (alt : bool) (m : dict) (rest : list dict) :
  moveInfos aj = m :: rest ->
  m !! "pv" = None ->
  refine_move <> None \/
    (exists p mv, parent self = Some p /\ move self = Some mv) ->
  raises (set_analysis self aj refine_move alt).
Proof.
  intros Hinfos Hpv Hcase.
  assert (Hfirst : first_pv (moveInfos aj) = Raise KeyError).
  { rewrite Hinfos. unfold first_pv, getitem. by rewrite Hpv. }
  unfold set_analysis. destruct refine_move as [rm|].
  - rewrite Hfirst. by exists KeyError.
  - destruct Hcase as [? | (p & mv & Hp & Hmv)]; [done|]. rewrite Hp, Hmv.
    destruct (if alt then mapM add_offset (moveInfos aj) else Ok (moveInfos aj))
      as [infos|e] eqn:Einfos; [|by exists e].
    rewrite bind_Ok_l.
    destruct (merge_infos _ infos) as [mvs|e]; [|by exists e].
    rewrite bind_Ok_l.
    assert (Hfirst' : first_pv infos = Raise KeyError).
    { destruct alt; [|by injection Einfos as <-].
      by rewrite (first_pv_add_offset _ _ Einfos). }
    rewrite Hfirst'. by exists KeyError.
Qed.

(** X18: what the caller finds in the reply after a whole-position merge.
    A primary merge leaves the move infos as delivered; an alternatives
    merge has raised the [order] of every move info by the offset, in the
    reply itself.  [ownership] and [policy] of the reply are not written. *)
Theorem set_analysis_reply_after (self self' : GameNode) (aj aj' : AnalysisJson)
    (alt : bool) :
  set_analysis self aj None alt = Ok (self', aj') ->
  json_ownership aj' = json_ownership aj /\
  json_policy aj' = json_policy aj /\
  (alt = false -> moveInfos aj' = moveInfos aj) /\
  (alt = true ->
   Forall2 (fun m m' : dict =>
              exists o o', m !! "order" = Some o /\
                           py_add_int o alternatives_offset = Ok o' /\
                           m' = <[ "order" := o' ]> m)
           (moveInfos aj) (moveInfos aj')).
Proof.
  intros H.
  assert (Hfields : json_ownership aj' = json_ownership aj /\
                    json_policy aj' = json_policy aj).
  { unfold set_analysis in H. inv_bind H. inv_bind H.
    destruct (parent self), (move self);
      try (by injection H as <- <-).
    inv_bind H. inv_bind H. by injection H as <- <-. }
  destruct Hfields as [Hown Hpol].
  apply set_analysis_inv in H. destruct H as (infos & Hinfos & _ & <- & _).
  repeat split; try done.
  - intros ->. by injection Hinfos as <-.
  - intros ->. apply mapM_Forall2 in Hinfos.
    eapply Forall2_impl; [exact Hinfos|]. cbn. intros m m' Hm.
    unfold add_offset in Hm. inv_bind Hm. inv_bind Hm. injection Hm as <-.
    apply getitem_Ok in Ha. by exists a, a0.
Qed.

(** ** A primary merge ranks the reply's moves afresh *)

(** One update of an entry that is absent or has order 999, by a record
    with an integer order up to 999, stores that order. *)
Lemma update_move_analysis_fresh_order (mvs mvs' : moves_t) (ma : dict)
    (k : string) (n : Z) :
  update_move_analysis mvs ma k = Ok mvs' ->
  (forall cur, moves_get mvs k = Some cur -> cur !! "order" = Some (VInt 999)) ->
  ma !! "order" = Some (VInt n) -> n <= 999 ->
  exists e, moves_get mvs' k = Some e /\ e !! "order" = Some (VInt n).
Proof.
  unfold update_move_analysis. intros H Hstale Hord Hle.
  destruct (moves_get mvs k) as [cur|] eqn:Hget.
  - assert (Hgd : get_default ma "order" (VInt 999) = VInt n)
      by (unfold get_default; by rewrite Hord).
    rewrite (getitem_lookup _ _ _ (Hstale cur eq_refl)), bind_Ok_l, Hgd in H.
    rewrite py_min_int, bind_Ok_l, Z.min_r in H by lia. cbv zeta in H.
    inv_bind H. inv_bind H. inv_bind H. injection H as <-.
    eexists. split; [apply moves_get_set_eq|].
    destruct a1.
    + by apply lookup_union_Some_l.
    + apply lookup_insert_eq.
  - injection H as <-. eexists. split; [apply moves_get_set_eq|].
    by apply with_defaults_field.
Qed.

Lemma merge_infos_fresh_order (infos : list dict) (mvs mvs' : moves_t)
    (m : dict) (k : string) (n : Z) :
  merge_infos mvs infos = Ok mvs' ->
  NoDup (map (fun i : dict => i !! "move") infos) ->
  (forall cur, moves_get mvs k = Some cur -> cur !! "order" = Some (VInt 999)) ->
  In m infos ->
  m !! "move" = Some (VStr k) ->
  m !! "order" = Some (VInt n) -> n <= 999 ->
  exists e, moves_get mvs' k = Some e /\ e !! "order" = Some (VInt n).
Proof.
  revert mvs.
  induction infos as [|ma infos IH]; intros mvs H Hnd Hstale Hin Hmove Hord Hle;
    [destruct Hin|].
  unfold merge_infos in H. simpl in H.
  apply bind_Ok in H as (mvs1 & Ha & H).
  apply bind_Ok in Ha as (v & Ha0 & Ha).
  apply bind_Ok in Ha as (k0 & Ha1 & Ha).
  apply getitem_Ok in Ha0. destruct v; try discriminate. injection Ha1 as ->.
  simpl in Hnd. apply NoDup_cons in Hnd as [Hfirst Hnd].
  destruct Hin as [-> | Hin].
  - rewrite Hmove in Ha0. injection Ha0 as <-.
    destruct (update_move_analysis_fresh_order _ _ _ _ _ Ha Hstale Hord Hle)
      as (e & He & Ho).
    exists e. split; [|done].
    rewrite <- He. apply (merge_infos_other infos mvs1 mvs' k H).
    intros i Hi Hik. apply Hfirst.
    rewrite Hmove, <- Hik. apply list_elem_of_In, in_map_iff. by exists i.
  - apply (IH mvs1); try done.
    intros cur Hcur. apply Hstale.
    rewrite <- Hcur. symmetry.
    apply (update_move_analysis_other _ _ _ _ _ Ha).
    intros ->. apply Hfirst.
    rewrite Ha0, <- Hmove. apply list_elem_of_In, in_map_iff. by exists m.
Qed.

(** X19: after a primary merge of a reply whose move infos name distinct
    moves, the entry of every move info with an integer order up to 999 has
    exactly that order: whatever rank was stored before, the reply's rank
    replaces it. *)
Theorem primary_merge_ranks (self self' : GameNode) (aj aj' : AnalysisJson)
    (m : dict) (k : string) (n : Z) :
  set_analysis self aj None false = Ok (self', aj') ->
  NoDup (map (fun i : dict => i !! "move") (moveInfos aj)) ->
  In m (moveInfos aj) ->
  m !! "move" = Some (VStr k) ->
  m !! "order" = Some (VInt n) -> n <= 999 ->
  exists e, moves_get (analysis_moves self') k = Some e /\
            e !! "order" = Some (VInt n).
Proof.
  intros H Hnd Hin Hmove Hord Hle. apply set_analysis_inv in H.
  destruct H as (infos & Hinfos & Hmerge & _). cbn in Hinfos, Hmerge.
  injection Hinfos as <-.
  apply (merge_infos_fresh_order _ _ _ m k n Hmerge); try done.
  intros cur Hcur. rewrite moves_get_reset_orders in Hcur.
  destruct (moves_get (analysis_moves self) k); [|discriminate].
  injection Hcur as <-. apply lookup_insert_eq.
Qed.

(** ** The parent's candidate agrees with the child's point loss *)

Lemma candidate_of_entry (n : GameNode) (root e : dict) (k : string)
    (l : list dict) :
  analysis_root n = Some root ->
  moves_get (analysis_moves n) k = Some e ->
  candidate_moves n = Ok l ->
  exists root_score d,
    root !! "scoreLead" = Some root_score /\
    with_points_lost (next_player n) root_score e = Ok d /\
    In d l.
Proof.
  intros Hroot He H. unfold candidate_moves in H. rewrite Hroot in H.
  destruct (analysis_moves n) as [|kd mvs] eqn:Hmvs; [discriminate|].
  rewrite <- Hmvs in *. clear Hmvs kd mvs.
  inv_bind H. rename a into root_score. inv_bind H.
  destruct (mapM_In _ _ _ _ Ha0 (moves_get_In _ _ _ He)) as (d & Hd & Hin).
  exists root_score, d. apply getitem_Ok in Ha.
  repeat split; try done. by apply (py_sorted_In _ _ _ _ _ H).
Qed.

(** X20: a node with a parent and a move completes a primary merge that
    creates the parent's entry for the move or replaces one with fewer
    visits.  When the parent is ready, its player to move is the mover,
    and no point loss is stored in the reply or in the replaced entry, the
    parent's candidate for the move has as [pointsLost] exactly the node's
    [points_lost]. *)
Theorem parent_candidate_points_lost (self self' p : GameNode) (m : Move)
    (aj aj' : AnalysisJson) (rp : dict) (s : value) (l : list dict) :
  set_analysis self aj None false = Ok (self', aj') ->
  parent self = Some p ->
  move self = Some m ->
  next_player p = player m ->
  analysis_root p = Some rp ->
  rootInfo aj !! "scoreLead" = Some s ->
  rootInfo aj !! "pointsLost" = None ->
  (forall cur, moves_get (analysis_moves p) (gtp m) = Some cur ->
     cur !! "pointsLost" = None /\
     exists cv rv, cur !! "visits" = Some cv /\
                   rootInfo aj !! "visits" = Some rv /\
                   py_lt cv rv = Ok true) ->
  forall p', parent self' = Some p' ->
  candidate_moves p' = Ok l ->
  exists e d v,
    moves_get (analysis_moves p') (gtp m) = Some e /\
    In d l /\
    (forall f, f <> "pointsLost" -> d !! f = e !! f) /\
    d !! "scoreLead" = Some s /\
    d !! "pointsLost" = Some v /\
    points_lost self' = Ok (Some v).
Proof.
  intros H Hp Hm Hnp Hrp Hs Hnopl Hcur p' Hp' Hl.
  apply set_analysis_inv in H.
  destruct H as (infos & Hinfos & _ & _ & Hmove & _ & _ & Hroot & Hback).
  cbn in Hinfos, Hroot. injection Hinfos as <-.
  rewrite Hp, Hm in Hback.
  destruct Hback as (pvtail & pmvs & Hpv & Hroot' & Hupd & Hp'').
  rewrite Hp' in Hp''. injection Hp'' as ->.
  destruct (update_move_analysis_stored _ _ _ _ Hupd) as [e He].
  assert (Hfewer : forall cur, moves_get (analysis_moves p) (gtp m) = Some cur ->
             exists cv mv, cur !! "visits" = Some cv /\
                           rootInfo aj' !! "visits" = Some mv /\
                           py_lt cv mv = Ok true).
  { intros cur Hc. destruct (Hcur cur Hc) as (_ & cv & rv & Hcv & Hrv & Hlt).
    exists cv, rv. by rewrite Hroot', lookup_insert_ne. }
  assert (Hes : e !! "scoreLead" = Some s).
  { apply (update_move_analysis_replaced _ _ _ _ _ _ _ Hupd Hfewer He).
    by rewrite Hroot', lookup_insert_ne. }
  assert (Hepl : e !! "pointsLost" = None).
  { unfold update_move_analysis in Hupd.
    destruct (moves_get (analysis_moves p) (gtp m)) as [cur|] eqn:Hc.
    - destruct (Hcur cur eq_refl) as (Hnone & _).
      inv_bind Hupd. inv_bind Hupd. cbv zeta in Hupd.
      inv_bind Hupd. inv_bind Hupd. inv_bind Hupd. injection Hupd as <-.
      rewrite moves_get_set_eq in He. injection He as <-.
      assert (Hc1 : (<[ "order" := a0 ]> cur : dict) !! "pointsLost" = None)
        by (by rewrite lookup_insert_ne).
      destruct a3; [|done].
      rewrite lookup_union, Hc1, Hroot', lookup_insert_ne, Hnopl; done.
    - injection Hupd as <-. rewrite moves_get_set_eq in He. injection He as <-.
      unfold with_defaults.
      rewrite lookup_union, Hroot', lookup_insert_ne, Hnopl by done.
      by simplify_map_eq. }
  destruct (candidate_of_entry (set_moves p pmvs) rp e (gtp m) l Hrp He Hl)
    as (rs & d & Hrs & Hd & Hin).
  unfold with_points_lost in Hd. cbn [set_moves next_player] in Hd.
  apply bind_Ok in Hd as (sg & Hsg & Hd).
  apply bind_Ok in Hd as (s' & Hs' & Hd).
  apply getitem_Ok in Hs'. rewrite Hes in Hs'. injection Hs' as <-.
  apply bind_Ok in Hd as (diff & Hdiff & Hd).
  apply bind_Ok in Hd as (pl & Hpl & Hd). injection Hd as <-.
  exists e, (e ∪ {[ "pointsLost" := pl ]}), pl.
  split; [done|]. split; [done|]. split; [|split; [|split]].
  - intros f Hf. rewrite lookup_union, lookup_singleton_ne by done.
    by destruct (e !! f).
  - by apply lookup_union_Some_l.
  - rewrite lookup_union, Hepl. by simplify_map_eq.
  - unfold points_lost, analysis_ready, score, get_default.
    rewrite Hmove, Hm, Hp', Hroot. cbn [analysis_root set_moves].
    rewrite Hrp, Hroot', lookup_insert_ne, Hs, Hrs by done.
    cbn [andb from_option id].
    rewrite <- Hnp, Hsg, bind_Ok_l, Hdiff, bind_Ok_l, Hpl. reflexivity.
Qed.

(** ** A refine merge and a [pv] among the root statistics *)

(** C4 (the code where it departs from the claim): when the root statistics
    of the reply carry a [pv], a refine merge that creates the entry of the
    refined move, or replaces one with fewer visits, stores that [pv] as it
    is: the list [[refine_move] + pvtail] built for the merge is overridden
    by the spread of [rootInfo] and the refined move is not prepended.  The
    back-propagation into the parent assigns [rootInfo["pv"]] instead and
    so does prepend the move. *)
Theorem refine_root_pv_wins (self self' : GameNode) (aj aj' : AnalysisJson)
    (rm : Move) (alt : bool) (v : value) :
  set_analysis self aj (Some rm) alt = Ok (self', aj') ->
  rootInfo aj !! "pv" = Some v ->
  (forall cur, moves_get (analysis_moves self) (gtp rm) = Some cur ->
     exists cv rv, cur !! "visits" = Some cv /\
                   rootInfo aj !! "visits" = Some rv /\
                   py_lt cv rv = Ok true) ->
  exists e,
    moves_get (analysis_moves self') (gtp rm) = Some e /\
    e !! "pv" = Some v.
Proof.
  intros H Hpv Hfewer. apply set_analysis_refine_inv in H.
  destruct H as (pvtail & _ & Hupd & _).
  destruct (update_move_analysis_stored _ _ _ _ Hupd) as [e He].
  exists e. split; [done|].
  apply (update_move_analysis_replaced _ _ _ _ _ "pv" v Hupd); [|done|].
  - intros cur Hcur. destruct (Hfewer cur Hcur) as (cv & rv & Hcv & Hrv & Hlt).
    exists cv, rv. repeat split; try done. by apply lookup_union_Some_l.
  - by apply lookup_union_Some_l.
Qed.

End GameNode.

(** * The theorems on concrete positions

    The parameters are instantiated with [gtp_coord], [grid_rows] and the
    player ["B"] for a bare pass move. *)

Lemma alternatives_overwrite_ownership_policy_witness :
  let out := get_ok (set_analysis gtp_coord stored_node reply None true)
               (stored_node, reply) in
  ownership (fst out) = None /\
  policy (fst out) = Some small_policy /\
  analysis_root (fst out) = analysis_root stored_node /\
  forall (prim prim' : GameNode) (pj' : AnalysisJson),
    set_analysis gtp_coord prim reply None false = Ok (prim', pj') ->
    ownership prim' = ownership (fst out) /\ policy prim' = policy (fst out).
Proof.
  intros out.
  apply (alternatives_overwrite_ownership_policy gtp_coord
           stored_node (fst out) reply (snd out)).
  vm_compute. reflexivity.
Defined.

Lemma primary_merge_resets_witness :
  let out := get_ok (set_analysis gtp_coord stored_node reply None false)
               (stored_node, reply) in
  (exists e', moves_get (analysis_moves (fst out)) "D4" = Some e' /\
              e' !! "order" = Some (VInt 999)) /\
  analysis_root (fst out) = Some (rootInfo reply).
Proof.
  intros out.
  destruct (primary_merge_resets gtp_coord stored_node (fst out) reply (snd out))
    as (Hstale & Hroot & _ & Hsame); [vm_compute; reflexivity|].
  assert (Hnot : forall m, In m (moveInfos reply) ->
                           m !! "move" <> Some (VStr "D4")).
  { intros m [<- | []]. vm_compute. discriminate. }
  split.
  - destruct (Hstale "D4" _ eq_refl Hnot) as (e' & He' & Hord & _).
    by exists e'.
  - rewrite Hroot, Hsame; [done | by left].
Defined.

Lemma alternatives_merge_offset_witness :
  let out := get_ok (set_analysis gtp_coord stored_node reply None true)
               (stored_node, reply) in
  analysis_root (fst out) = analysis_root stored_node /\
  exists e n', moves_get (analysis_moves (fst out)) "Q16" = Some e /\
               e !! "order" = Some (VInt n') /\ 0 + alternatives_offset <= n'.
Proof.
  intros out.
  destruct (alternatives_merge_offset gtp_coord stored_node (fst out) reply (snd out))
    as (Hroot & Hnew); [vm_compute; reflexivity|].
  split; [done|].
  destruct (moves_get (analysis_moves (fst out)) "Q16") as [e|] eqn:He;
    [|vm_compute in He; discriminate].
  destruct (Hnew "Q16" e eq_refl He)
    as (m & o & o' & Hm & _ & Ho & _ & _ & Hint).
  destruct Hm as [<- | []].
  destruct (Hint 0) as (n' & Hord & Hle).
  { vm_compute in Ho. by injection Ho as <-. }
  by exists e, n'.
Defined.

Lemma refine_merge_frame_witness :
  let q16 := mkMove (Some (15, 15)%nat) black in
  let out := get_ok (set_analysis gtp_coord stored_node reply (Some q16) false)
               (stored_node, reply) in
  (exists e, moves_get (analysis_moves (fst out)) "Q16" = Some e /\
             e !! "visits" = Some (VInt 50) /\
             e !! "pv" = Some (VList ["Q16"; "Q16"; "D16"])) /\
  moves_get (analysis_moves (fst out)) "D4"
    = moves_get (analysis_moves stored_node) "D4" /\
  analysis_root (fst out) = analysis_root stored_node /\
  ownership (fst out) = None /\ policy (fst out) = None /\
  snd out = reply.
Proof.
  intros q16 out.
  destruct (refine_merge_frame gtp_coord stored_node (fst out) reply (snd out)
              q16 false)
    as (pvtail & ma & _ & _ & _ & _ & _ & Hother & Hroot & Hown & Hpol & _ & Haj);
    [vm_compute; reflexivity|].
  split; [eexists; repeat split; vm_compute; reflexivity|].
  split; [by apply (Hother "D4")|].
  by repeat split.
Defined.

Lemma refine_root_pv_wins_witness :
  let out := get_ok (set_analysis gtp_coord (scored_root 0.5) reply_with_root_pv
                       (Some (D4 black)) false)
               (scored_root 0.5, reply_with_root_pv) in
  exists e, moves_get (analysis_moves (fst out)) (gtp_coord (D4 black)) = Some e /\
            e !! "pv" = Some (VList ["Q16"]).
Proof.
  intros out.
  apply (refine_root_pv_wins gtp_coord (scored_root 0.5) (fst out)
           reply_with_root_pv (snd out) (D4 black) false (VList ["Q16"])).
  - vm_compute. reflexivity.
  - reflexivity.
  - intros cur Hcur. discriminate.
Defined.

Lemma parent_back_propagation_witness :
  let self := scored_child (scored_root 0.5) (D4 black) 0.25 in
  let out := get_ok (set_analysis gtp_coord self reply None false) (self, reply) in
  exists p' e,
    parent (fst out) = Some p' /\
    moves_get (analysis_moves p') "D4" = Some e /\
    e !! "pv" = Some (VList ["D4"; "Q16"; "D16"]) /\
    forall l, candidate_moves gtp_coord grid_rows black p' = Ok l ->
      exists d, In d l /\ d !! "pv" = Some (VList ["D4"; "Q16"; "D16"]).
Proof.
  intros self out.
  destruct (parent_back_propagation gtp_coord grid_rows black
              self (fst out) (scored_root 0.5) (D4 black) reply (snd out) false)
    as (pvtail & p' & e & Hpv & _ & Hp' & _ & _ & _ & _ & He & Hrep & Hcand);
    [vm_compute; reflexivity | reflexivity | reflexivity |].
  assert (Htail : pvtail = ["Q16"; "D16"]).
  { vm_compute in Hpv. by injection Hpv as <-. }
  subst pvtail.
  assert (Hepv : e !! "pv" = Some (VList ["D4"; "Q16"; "D16"])).
  { apply Hrep. intros cur Hcur. discriminate. }
  exists p', e. repeat split; try done.
  intros l Hl. destruct (Hcand l eq_refl Hl) as (d & Hd & Hsame).
  exists d. split; [done|]. by rewrite Hsame.
Defined.

(** C2 as claimed fails when the parent already holds an entry for the
    move with at least as many visits: the root position takes a reply
    whose move info for D4 has 100 visits and no [pv]; its child D4 then
    merges a reply with 50 root visits.  The parent's entry is kept, and no
    candidate of the parent has a [pv]. *)
Lemma parent_entry_keeps_its_pv :
  let p1 := fst (get_ok (set_analysis gtp_coord
                           (new_node None None black (19, 19)%nat)
                           reply_without_pv None false)
                   (new_node None None black (19, 19)%nat, reply_without_pv)) in
  let self := new_node (Some p1) (Some (D4 black)) white (19, 19)%nat in
  let out := get_ok (set_analysis gtp_coord self reply None false) (self, reply) in
  set_analysis gtp_coord self reply None false = Ok out /\
  gtp_coord (D4 black) = "D4" /\
  exists p' l d,
    parent (fst out) = Some p' /\
    analysis_ready p' = true /\
    candidate_moves gtp_coord grid_rows black p' = Ok l /\
    l = [d] /\ d !! "move" = Some (VStr "D4") /\ d !! "pv" = None.
Proof.
  intros p1 self out. split; [vm_compute; reflexivity|]. split; [reflexivity|].
  eexists _, _, _. split; [vm_compute; reflexivity|].
  split; [vm_compute; reflexivity|].
  split; [vm_compute; reflexivity|].
  split; [reflexivity|].
  split; vm_compute; reflexivity.
Qed.

Lemma candidate_fallback_witness :
  exists d,
    candidate_moves gtp_coord grid_rows black small_root = Ok [d] /\
    d !! "move" = Some (VStr "B2") /\
    d !! "pointsLost" = Some (VInt 0) /\
    d !! "order" = Some (VInt 0).
Proof.
  pose (pr := get_ok (policy_ranking grid_rows small_root) None).
  destruct (proj2 (candidate_fallback gtp_coord grid_rows black small_root)
              {[ "scoreLead" := VFloat 0.5; "visits" := VInt 1 ]} pr
              eq_refl eq_refl)
    as (top & d & Hc & Hpol & Hmove & Hpl & Ho); [vm_compute; reflexivity|].
  cbn in Hpol. destruct Hpol as (pm & rest & Hpr & ->).
  apply (f_equal (fun o : option (list (float * Move)) =>
                    match o with
                    | Some (x :: _) => snd x
                    | _ => mkMove None VNone
                    end)) in Hpr.
  cbn in Hpr. rewrite <- Hpr in Hmove.
  exists d. repeat split; [exact Hc | exact Hmove | exact Hpl | exact Ho].
Defined.

Lemma move_policy_stats_without_policy_witness :
  move_policy_stats grid_rows black_example = Raise TypeError.
Proof.
  exact (move_policy_stats_without_policy grid_rows black_example
           (scored_root 3) (D4 black) eq_refl eq_refl (or_introl eq_refl)).
Defined.

(** * The per-move merge returns

    With integer visits and orders, as the engine delivers them, an update
    never raises. *)
Lemma update_move_analysis_returns (mvs : moves_t) (ma : dict) (k : string)
    (vm om : Z) :
  ma !! "visits" = Some (VInt vm) ->
  get_default ma "order" (VInt 999) = VInt om ->
  (forall cur, moves_get mvs k = Some cur ->
     exists oc vc, cur !! "order" = Some (VInt oc) /\
                   cur !! "visits" = Some (VInt vc)) ->
  exists mvs', update_move_analysis mvs ma k = Ok mvs'.
Proof.
  intros Hvm Hom Hcur.
  destruct (moves_get mvs k) as [cur|] eqn:Hget.
  - destruct (Hcur cur eq_refl) as (oc & vc & Hoc & Hvc).
    eexists. by apply (update_move_analysis_existing mvs ma cur k oc om vc vm).
  - eexists. by apply update_move_analysis_new.
Qed.

(** * The further properties on concrete positions *)

Lemma set_analysis_move_ids_witness :
  let out := get_ok (set_analysis gtp_coord stored_node reply None false)
               (stored_node, reply) in
  NoDup (move_ids (analysis_moves (fst out))) /\
  exists new, move_ids (analysis_moves (fst out)) = app ["D4"] new.
Proof.
  intros out.
  apply (set_analysis_move_ids gtp_coord stored_node (fst out) reply (snd out)
           None false).
  - vm_compute. reflexivity.
  - apply NoDup_singleton.
Defined.

Lemma set_analysis_keyed_witness :
  let out := get_ok (set_analysis gtp_coord stored_node reply None true)
               (stored_node, reply) in
  keyed (analysis_moves (fst out)) /\
  (forall p', parent (fst out) = Some p' -> keyed (analysis_moves p')).
Proof.
  intros out.
  apply (set_analysis_keyed gtp_coord stored_node (fst out) reply (snd out)
           None true).
  - reflexivity.
  - apply keyed_cons; [reflexivity | apply keyed_nil].
  - intros p Hp. discriminate.
  - vm_compute. reflexivity.
Defined.

Lemma set_analysis_stores_reply_moves_witness :
  let out := get_ok (set_analysis gtp_coord stored_node reply None false)
               (stored_node, reply) in
  exists e, moves_get (analysis_moves (fst out)) "Q16" = Some e.
Proof.
  intros out.
  apply (set_analysis_stores_reply_moves gtp_coord stored_node (fst out)
           reply (snd out) false
           {[ "move" := VStr "Q16"; "order" := VInt 0; "visits" := VInt 40;
              "scoreLead" := VFloat 0.25; "pv" := VList ["Q16"; "D16"] ]}).
  - vm_compute. reflexivity.
  - by left.
  - reflexivity.
Defined.

Lemma primary_merge_ready_witness :
  let out := get_ok (set_analysis gtp_coord
                       (new_node None None black (19, 19)%nat) reply None false)
               (stored_node, reply) in
  analysis_ready (fst out) = true /\
  score (fst out) = VFloat 0.25 /\
  winrate (fst out) = VFloat 0.5.
Proof.
  intros out.
  apply (primary_merge_ready gtp_coord (new_node None None black (19, 19)%nat)
           (fst out) reply (snd out)).
  vm_compute. reflexivity.
Defined.

Lemma secondary_merge_not_ready_witness :
  let fresh := new_node None None black (19, 19)%nat in
  let out := get_ok (set_analysis gtp_coord fresh reply (Some (D4 black)) false)
               (fresh, reply) in
  analysis_moves (fst out) <> [] /\
  analysis_ready (fst out) = false /\
  score (fst out) = VNone /\
  points_lost (fst out) = Ok None /\
  candidate_moves gtp_coord grid_rows black (fst out) = Ok [].
Proof.
  intros fresh out. split; [vm_compute; discriminate|].
  apply (secondary_merge_not_ready gtp_coord grid_rows black fresh (fst out)
           reply (snd out) (Some (D4 black)) false).
  - vm_compute. reflexivity.
  - by left.
  - reflexivity.
Defined.

Lemma candidate_moves_entries_witness :
  let l := get_ok (candidate_moves gtp_coord grid_rows black stored_node) [] in
  exists root_score ds,
    analysis_root stored_node
      = Some {[ "scoreLead" := root_score; "visits" := VInt 100 ]} /\
    l ≡ₚ ds /\ length l = 1%nat.
Proof.
  intros l.
  destruct (candidate_moves_entries gtp_coord grid_rows black stored_node
              {[ "scoreLead" := VFloat 0.5; "visits" := VInt 100 ]} l)
    as (root_score & ds & Hscore & _ & Hperm & Hlen);
    [reflexivity | discriminate | vm_compute; reflexivity |].
  exists root_score, ds. repeat split; try done.
  assert (E : root_score = VFloat 0.5) by (vm_compute in Hscore; congruence).
  by rewrite E.
Defined.

Lemma candidate_moves_sorted_witness :
  let l := get_ok (candidate_moves gtp_coord grid_rows black ranked_node) [] in
  (exists os,
     Forall2 (fun (d : dict) o => d !! "order" = Some (VInt o)) l os /\
     StronglySorted Z.le os) /\
  map (fun d : dict => d !! "move") (map snd (analysis_moves ranked_node))
    = [Some (VStr "D4"); Some (VStr "Q16"); Some (VStr "C3")] /\
  map (fun d : dict => d !! "move") l
    = [Some (VStr "Q16"); Some (VStr "C3"); Some (VStr "D4")] /\
  map (fun d : dict => d !! "order") l
    = [Some (VInt 0); Some (VInt 1); Some (VInt 2)].
Proof.
  intros l. split; [|repeat split; vm_compute; reflexivity].
  apply (candidate_moves_sorted gtp_coord grid_rows black ranked_node l).
  - repeat constructor; by eexists.
  - vm_compute. reflexivity.
Defined.

Lemma policy_ranking_shape_witness :
  (exists r, policy_ranking grid_rows small_root = Ok (Some r)) /\
  forall r, policy_ranking grid_rows small_root = Ok (Some r) ->
    length r = 5%nat /\
    In (0.0625%float, mkMove None black) r /\
    forall x y, (x < 2)%nat -> (y < 2)%nat ->
      exists p, In (p, mkMove (Some (x, y)) black) r.
Proof.
  destruct (policy_ranking_shape grid_rows small_root
              0.125%float [0.5; 0.0625; 0.25; 0.0625]%float 2 2 eq_refl eq_refl)
    as [Hiff Hshape].
  split; [|exact Hshape].
  apply Hiff. intros x y Hx Hy.
  destruct x as [|[|x]], y as [|[|y]]; try lia; by eexists _, _.
Defined.

Lemma move_policy_stats_rank_witness :
  let out := get_ok (move_policy_stats grid_rows small_child) (None, 0%float, []) in
  exists m p m' (i : nat),
    move small_child = Some m /\ parent small_child = Some p /\
    policy_ranking grid_rows p = Ok (Some (snd out)) /\
    1 = Z.of_nat i + 1 /\ (i < length (snd out))%nat /\
    snd out !! i = Some (0.5%float, m') /\ Move_eqb m' m = true /\
    forall (j : nat) q mj, (j < i)%nat -> snd out !! j = Some (q, mj) ->
                           Move_eqb mj m = false.
Proof.
  intros out.
  apply (move_policy_stats_rank grid_rows small_child 1 0.5%float (snd out)).
  vm_compute. reflexivity.
Defined.

Lemma move_policy_stats_sentinel_witness :
  @nil (float * Move) = [] /\
  0%float = 0%float /\
  (move small_root = None \/ parent small_root = None \/
   exists m p ranking,
     move small_root = Some m /\ parent small_root = Some p /\
     policy_ranking grid_rows p = Ok (Some ranking) /\
     forall q m', In (q, m') ranking -> Move_eqb m' m = false).
Proof.
  apply (move_policy_stats_sentinel grid_rows small_root 0%float []).
  reflexivity.
Defined.

Lemma move_policy_stats_finds_witness :
  let ranking := get_ok (policy_ranking grid_rows small_root) None in
  exists rank prob,
    move_policy_stats grid_rows small_child
      = Ok (Some rank, prob, default [] ranking) /\
    1 <= rank <= Z.of_nat (2 * 2 + 1).
Proof.
  intros ranking.
  apply (move_policy_stats_finds grid_rows small_child small_root
           (mkMove (Some (1, 1)%nat) black) "B"
           0.125%float [0.5; 0.0625; 0.25; 0.0625]%float 2 2 (default [] ranking));
    try reflexivity.
  right. exists 1%nat, 1%nat. repeat split; lia.
Defined.

Lemma parent_realized_points_lost_formula_witness :
  parent_realized_points_lost
    (scored_child black_example (mkMove (Some (15, 15)%nat) white) 2)
  = Ok (Some (VFloat ((-1) * (2 - 3)))).
Proof.
  exact (proj2 (proj1 (parent_realized_points_lost_formula
                         (scored_child black_example
                            (mkMove (Some (15, 15)%nat) white) 2))
                  (mkMove (Some (15, 15)%nat) white) black_example
                  (scored_root 3) _ _ 2%float 3%float
                  eq_refl eq_refl eq_refl eq_refl eq_refl eq_refl eq_refl)
               eq_refl).
Defined.

Lemma set_analysis_missing_field_witness :
  raises (set_analysis gtp_coord stored_node reply_without_order None true).
Proof.
  apply (set_analysis_missing_field gtp_coord stored_node reply_without_order true
           {[ "move" := VStr "Q16"; "visits" := VInt 40 ]}).
  - by left.
  - right. by split.
Defined.

Lemma set_analysis_missing_pv_witness :
  raises (set_analysis gtp_coord stored_node reply_without_order
            (Some (D4 black)) false).
Proof.
  apply (set_analysis_missing_pv gtp_coord stored_node reply_without_order
           (Some (D4 black)) false
           {[ "move" := VStr "Q16"; "visits" := VInt 40 ]} []).
  - reflexivity.
  - reflexivity.
  - by left.
Defined.

Lemma set_analysis_reply_after_witness :
  let out := get_ok (set_analysis gtp_coord stored_node reply None true)
               (stored_node, reply) in
  json_ownership (snd out) = None /\
  json_policy (snd out) = Some small_policy /\
  (true = false -> moveInfos (snd out) = moveInfos reply) /\
  (true = true ->
   Forall2 (fun m m' : dict =>
              exists o o', m !! "order" = Some o /\
                           py_add_int o alternatives_offset = Ok o' /\
                           m' = <[ "order" := o' ]> m)
           (moveInfos reply) (moveInfos (snd out))).
Proof.
  intros out.
  apply (set_analysis_reply_after gtp_coord stored_node (fst out) reply (snd out)
           true).
  vm_compute. reflexivity.
Defined.

Lemma primary_merge_ranks_witness :
  let out := get_ok (set_analysis gtp_coord stored_node reply None false)
               (stored_node, reply) in
  exists e, moves_get (analysis_moves (fst out)) "Q16" = Some e /\
            e !! "order" = Some (VInt 0).
Proof.
  intros out.
  apply (primary_merge_ranks gtp_coord stored_node (fst out) reply (snd out)
           {[ "move" := VStr "Q16"; "order" := VInt 0; "visits" := VInt 40;
              "scoreLead" := VFloat 0.25; "pv" := VList ["Q16"; "D16"] ]}).
  - vm_compute. reflexivity.
  - apply NoDup_singleton.
  - by left.
  - reflexivity.
  - reflexivity.
  - lia.
Defined.

Lemma parent_candidate_points_lost_witness :
  let self := scored_child (scored_root 0.5) (D4 black) 0.25 in
  let out := get_ok (set_analysis gtp_coord self reply None false) (self, reply) in
  let p' := default (scored_root 0.5) (parent (fst out)) in
  let l := get_ok (candidate_moves gtp_coord grid_rows black p') [] in
  exists e d v,
    moves_get (analysis_moves p') "D4" = Some e /\
    In d l /\
    (forall f, f <> "pointsLost" -> d !! f = e !! f) /\
    d !! "scoreLead" = Some (VFloat 0.25) /\
    d !! "pointsLost" = Some v /\
    points_lost (fst out) = Ok (Some v).
Proof.
  intros self out p' l.
  apply (parent_candidate_points_lost gtp_coord grid_rows black
           self (fst out) (scored_root 0.5) (D4 black) reply (snd out)
           {[ "scoreLead" := VFloat 0.5; "visits" := VInt 100 ]}
           (VFloat 0.25) l).
  - vm_compute. reflexivity.
  - reflexivity.
  - reflexivity.
  - reflexivity.
  - reflexivity.
  - reflexivity.
  - reflexivity.
  - intros cur Hcur. discriminate.
  - vm_compute. reflexivity.
  - vm_compute. reflexivity.
Defined.
